(** * Campaign builder: hierarchy resolver, cascading resets, field status,
      schema validation and the partner / third-party gateway.

    A shallow embedding of the campaign form component (CampaignForm), of the
    partner and third-party routes, of the storage class behind them and of
    the shared insert schemas, followed by the properties stated about them.

    Conventions.
    - A JavaScript string is its sequence of UTF-16 code units ([jsstring]).
    - An object literal used as a lookup table is a [gmap] of its own
      properties; property access and the [in] operator also see what the
      object inherits from [Object.prototype] ([get_property]).
    - A function that can throw returns a [completion].
    - React state is threaded explicitly: the form store, the [useRef] cells
      and the dependencies seen by the last render. *)

From Stdlib Require Import NArith ZArith Ascii String Sorted.
From Stdlib.Strings Require Import Byte.
From stdpp Require Import gmap strings list fin_maps.

(* ===================================================================== *)
(** ** JavaScript strings                                                 *)
(* ===================================================================== *)

(** A string value: the list of its UTF-16 code units. *)
Record jsstring := JsString { units : list N }.

Definition js_of_bytes (bs : list Byte.byte) : jsstring :=
  JsString (Byte.to_N <$> bs).

Definition bytes_of_js (s : jsstring) : option (list Byte.byte) :=
  mapM Byte.of_N (units s).

Declare Scope js_scope.
Delimit Scope js_scope with js.
Bind Scope js_scope with jsstring.
String Notation jsstring js_of_bytes bytes_of_js : js_scope.

#[global] Instance jsstring_eq_dec : EqDecision jsstring.
Proof. solve_decision. Defined.

#[global] Instance jsstring_countable : Countable jsstring.
Proof. apply (inj_countable' units JsString). by intros []. Defined.

(** [!s] for a string [s]: only the empty string is falsy. *)
Definition str_falsy (s : jsstring) : bool :=
  match units s with [] => true | _ => false end.

(** The code units removed by [String.prototype.trim]: WhiteSpace
    (TAB, VT, FF, ZWNBSP and the Space_Separator category) and
    LineTerminator (LF, CR, LS, PS).  All of them lie in the BMP. *)
Definition is_trim_unit (c : N) : bool :=
  (  (c =? 0x0009) || (c =? 0x000A) || (c =? 0x000B) || (c =? 0x000C)
  || (c =? 0x000D) || (c =? 0x0020) || (c =? 0x00A0) || (c =? 0x1680)
  || ((0x2000 <=? c) && (c <=? 0x200A))
  || (c =? 0x2028) || (c =? 0x2029) || (c =? 0x202F) || (c =? 0x205F)
  || (c =? 0x3000) || (c =? 0xFEFF))%N.

Fixpoint trim_start (l : list N) : list N :=
  match l with
  | c :: l' => if is_trim_unit c then trim_start l' else l
  | [] => []
  end.

(** [s.trim()] *)
Definition trim (s : jsstring) : jsstring :=
  JsString (rev (trim_start (rev (trim_start (units s))))).

(** Order used by [Array.prototype.sort] without a comparator: strings are
    compared code unit by code unit. *)
Fixpoint units_ltb (a b : list N) : bool :=
  match a, b with
  | _, [] => false
  | [], _ :: _ => true
  | x :: a', y :: b' =>
      if (x <? y)%N then true
      else if (y <? x)%N then false
      else units_ltb a' b'
  end.

Definition js_ltb (a b : jsstring) : bool := units_ltb (units a) (units b).

Fixpoint sort_insert (x : jsstring) (l : list jsstring) : list jsstring :=
  match l with
  | [] => [x]
  | y :: l' => if js_ltb x y then x :: l else y :: sort_insert x l'
  end.

(** [[...xs].sort()]: a fresh, sorted copy.  The order is total and two
    strings that compare equal are the same string, so the result does not
    depend on the sorting algorithm. *)
Definition sort (xs : list jsstring) : list jsstring :=
  foldr sort_insert [] xs.

(* ===================================================================== *)
(** ** Object literals and completions                                    *)
(* ===================================================================== *)

(** Properties every object literal inherits from [Object.prototype]. *)
Definition objectPrototypeKeys : list jsstring :=
  [ "constructor"; "hasOwnProperty"; "isPrototypeOf"; "propertyIsEnumerable";
    "toLocaleString"; "toString"; "valueOf"; "__proto__";
    "__defineGetter__"; "__defineSetter__";
    "__lookupGetter__"; "__lookupSetter__" ]%js.

(** Result of [o[k]] on an object literal whose own properties are [o]:
    an own property, a built-in inherited from the prototype, or
    [undefined]. *)
Inductive property (A : Type) : Type :=
  | Own (a : A)
  | Inherited
  | Missing.
Arguments Own {A} a.
Arguments Inherited {A}.
Arguments Missing {A}.

Definition get_property {A} (o : gmap jsstring A) (k : jsstring) : property A :=
  match o !! k with
  | Some a => Own a
  | None => if bool_decide (k ∈ objectPrototypeKeys) then Inherited else Missing
  end.

(** [k in o] *)
Definition has_property {A} (k : jsstring) (o : gmap jsstring A) : bool :=
  match get_property o k with
  | Missing => false
  | _ => true
  end.

(** Outcome of evaluating an expression: a value, or a thrown TypeError. *)
Inductive completion (A : Type) : Type :=
  | Return (a : A)
  | TypeError.
Arguments Return {A} a.
Arguments TypeError {A}.

(* ===================================================================== *)
(** ** Hierarchy table ([hierarchicalData])                               *)
(* ===================================================================== *)

Record TypeData := {
  sources : list jsstring;
  adTypes : gmap jsstring (list jsstring);
  adTypeDetails : gmap jsstring (list jsstring)
}.

Definition campaignHierarchy_entries : list (jsstring * TypeData) :=
  [ ("Display Ads",
      {| sources := ["Google"; "Facebook"; "LinkedIn"];
         adTypes := list_to_map
           [ ("Google", ["Banner"; "Video"]);
             ("Facebook", ["Image"; "Video"; "Carousel"]);
             ("LinkedIn", ["Banner"; "Text"]) ];
         adTypeDetails := list_to_map
           [ ("Banner", ["Standard Banner"; "Rich Media"]);
             ("Video", ["Interstitial"; "Native"]);
             ("Image", ["Standard Banner"; "Native"]);
             ("Carousel", ["Rich Media"; "Native"]);
             ("Text", ["Standard Banner"]) ] |});
    ("Email Campaign",
      {| sources := ["Email Newsletter"; "Organic Social"];
         adTypes := list_to_map
           [ ("Email Newsletter", ["Text"; "Image"]);
             ("Organic Social", ["Text"; "Image"; "Video"]) ];
         adTypeDetails := list_to_map
           [ ("Text", ["Standard Banner"]);
             ("Image", ["Standard Banner"; "Rich Media"]);
             ("Video", ["Native"; "Interstitial"]) ] |});
    ("Google Ads",
      {| sources := ["Google"; "Paid Social"];
         adTypes := list_to_map
           [ ("Google", ["Banner"; "Video"; "Text"]);
             ("Paid Social", ["Image"; "Video"; "Carousel"]) ];
         adTypeDetails := list_to_map
           [ ("Banner", ["Standard Banner"; "Rich Media"; "Expandable"]);
             ("Video", ["Interstitial"; "Native"]);
             ("Text", ["Standard Banner"]);
             ("Image", ["Standard Banner"; "Rich Media"]);
             ("Carousel", ["Rich Media"; "Native"]) ] |});
    ("Social Media",
      {| sources := ["Facebook"; "LinkedIn"; "Organic Social"; "Paid Social"];
         adTypes := list_to_map
           [ ("Facebook", ["Image"; "Video"; "Carousel"; "Story"]);
             ("LinkedIn", ["Banner"; "Text"; "Image"]);
             ("Organic Social", ["Text"; "Image"; "Video"]);
             ("Paid Social", ["Image"; "Video"; "Carousel"]) ];
         adTypeDetails := list_to_map
           [ ("Image", ["Standard Banner"; "Rich Media"; "Native"]);
             ("Video", ["Interstitial"; "Native"]);
             ("Carousel", ["Rich Media"; "Native"]);
             ("Story", ["Native"]);
             ("Banner", ["Standard Banner"; "Rich Media"]);
             ("Text", ["Standard Banner"]) ] |});
    ("Video Campaign",
      {| sources := ["Google"; "Facebook"; "Paid Social"];
         adTypes := list_to_map
           [ ("Google", ["Video"]);
             ("Facebook", ["Video"; "Story"]);
             ("Paid Social", ["Video"; "Carousel"]) ];
         adTypeDetails := list_to_map
           [ ("Video", ["Interstitial"; "Native"; "Rich Media"]);
             ("Story", ["Native"]);
             ("Carousel", ["Rich Media"; "Native"]) ] |}) ]%js.

Definition campaignHierarchy : gmap jsstring TypeData :=
  list_to_map campaignHierarchy_entries.

Definition costCenterSubLedgers_entries : list (jsstring * list jsstring) :=
  [ ("Engineering",
      ["Engineering Projects"; "Engineering Operations"; "Engineering R&D"]);
    ("Marketing",
      ["Marketing Campaigns"; "Marketing Events"; "Marketing Content"]);
    ("Operations",
      ["Operations Support"; "Operations Infrastructure";
       "Operations Maintenance"]);
    ("Product",
      ["Product Development"; "Product Support"; "Product Research"]);
    ("Sales", ["Sales Activities"; "Sales Support"; "Sales Training"]) ]%js.

Definition costCenterSubLedgers : gmap jsstring (list jsstring) :=
  list_to_map costCenterSubLedgers_entries.

(** [mockData.campaignTypes] and [mockData.costCenters]:
    [Object.keys(...).sort()]. *)
Definition campaignTypes : list jsstring :=
  sort (campaignHierarchy_entries.*1).

Definition costCenters : list jsstring :=
  sort (costCenterSubLedgers_entries.*1).

(* ===================================================================== *)
(** ** Dependent-field resolver (the four [useMemo] filters)              *)
(* ===================================================================== *)

Definition filteredCampaignSources (campaignType : jsstring)
  : completion (list jsstring) :=
  if str_falsy campaignType || negb (has_property campaignType campaignHierarchy)
  then Return []
  else
    match get_property campaignHierarchy campaignType with
    | Own typeData => Return (sort (sources typeData))
    | _ => TypeError (* typeData.sources is undefined and cannot be spread *)
    end.

Definition filteredAdTypes (campaignType campaignSource : jsstring)
  : completion (list jsstring) :=
  if str_falsy campaignType || str_falsy campaignSource
     || negb (has_property campaignType campaignHierarchy)
  then Return []
  else
    match get_property campaignHierarchy campaignType with
    | Own typeData =>
        if negb (has_property campaignSource (adTypes typeData)) then Return []
        else
          match get_property (adTypes typeData) campaignSource with
          | Own adTypes => Return (sort adTypes)
          | _ => TypeError (* a built-in is not iterable *)
          end
    | _ => TypeError (* [in] applied to typeData.adTypes = undefined *)
    end.

Definition filteredAdTypeDetails (campaignType adType : jsstring)
  : completion (list jsstring) :=
  if str_falsy campaignType || str_falsy adType
     || negb (has_property campaignType campaignHierarchy)
  then Return []
  else
    match get_property campaignHierarchy campaignType with
    | Own typeData =>
        if negb (has_property adType (adTypeDetails typeData)) then Return []
        else
          match get_property (adTypeDetails typeData) adType with
          | Own details => Return (sort details)
          | _ => TypeError
          end
    | _ => TypeError
    end.

Definition filteredSubLedgers (costCenter : jsstring)
  : completion (list jsstring) :=
  if str_falsy costCenter || negb (has_property costCenter costCenterSubLedgers)
  then Return []
  else
    match get_property costCenterSubLedgers costCenter with
    | Own subLedgers => Return (sort subLedgers)
    | _ => TypeError
    end.

(** [x] is one of the options a resolver offers. *)
Definition offered (x : jsstring) (r : completion (list jsstring)) : Prop :=
  match r with
  | Return l => x ∈ l
  | TypeError => False
  end.

(* ===================================================================== *)
(** ** Form state controller: cascading resets                            *)
(* ===================================================================== *)

(** The six form fields of the two dependency chains.  Their default values
    are strings ([initialData?.x || ""]) and every [setValue] on them passes
    a string. *)
Record FormValues := {
  campaignType : jsstring;
  campaignSource : jsstring;
  adType : jsstring;
  adTypeDetail : jsstring;
  costCenter : jsstring;
  subLedger : jsstring
}.

Inductive Field :=
  | F_campaignType | F_campaignSource | F_adType | F_adTypeDetail
  | F_costCenter | F_subLedger.

(** [form.setValue(field, x)] *)
Definition setValue (f : Field) (x : jsstring) (v : FormValues) : FormValues :=
  match f with
  | F_campaignType =>
      {| campaignType := x; campaignSource := campaignSource v;
         adType := adType v; adTypeDetail := adTypeDetail v;
         costCenter := costCenter v; subLedger := subLedger v |}
  | F_campaignSource =>
      {| campaignType := campaignType v; campaignSource := x;
         adType := adType v; adTypeDetail := adTypeDetail v;
         costCenter := costCenter v; subLedger := subLedger v |}
  | F_adType =>
      {| campaignType := campaignType v; campaignSource := campaignSource v;
         adType := x; adTypeDetail := adTypeDetail v;
         costCenter := costCenter v; subLedger := subLedger v |}
  | F_adTypeDetail =>
      {| campaignType := campaignType v; campaignSource := campaignSource v;
         adType := adType v; adTypeDetail := x;
         costCenter := costCenter v; subLedger := subLedger v |}
  | F_costCenter =>
      {| campaignType := campaignType v; campaignSource := campaignSource v;
         adType := adType v; adTypeDetail := adTypeDetail v;
         costCenter := x; subLedger := subLedger v |}
  | F_subLedger =>
      {| campaignType := campaignType v; campaignSource := campaignSource v;
         adType := adType v; adTypeDetail := adTypeDetail v;
         costCenter := costCenter v; subLedger := x |}
  end.

(** [initialData]: the part of the optional draft passed to the component
    that concerns the six fields ([None] is an absent property). *)
Record InitialData := {
  init_campaignType : option jsstring;
  init_campaignSource : option jsstring;
  init_adType : option jsstring;
  init_adTypeDetail : option jsstring;
  init_costCenter : option jsstring;
  init_subLedger : option jsstring
}.

(** [x || ""] for an optional string. *)
Definition or_empty (x : option jsstring) : jsstring := default ""%js x.

Definition defaultValues (d : InitialData) : FormValues :=
  {| campaignType := or_empty (init_campaignType d);
     campaignSource := or_empty (init_campaignSource d);
     adType := or_empty (init_adType d);
     adTypeDetail := or_empty (init_adTypeDetail d);
     costCenter := or_empty (init_costCenter d);
     subLedger := or_empty (init_subLedger d) |}.

(** The four [useRef<string | null>(null)] cells; [None] is [null]. *)
Record Refs := {
  prevCampaignType : option jsstring;
  prevCampaignSource : option jsstring;
  prevAdType : option jsstring;
  prevCostCenter : option jsstring
}.

(** The values a render reads with [form.watch]: they are what the effect
    closures of that render see, and the dependencies React compares. *)
Record Watched := {
  w_campaignType : jsstring;
  w_campaignSource : jsstring;
  w_adType : jsstring;
  w_costCenter : jsstring
}.

#[global] Instance Watched_eq_dec : EqDecision Watched.
Proof. solve_decision. Defined.

Definition watch (v : FormValues) : Watched :=
  {| w_campaignType := campaignType v; w_campaignSource := campaignSource v;
     w_adType := adType v; w_costCenter := costCenter v |}.

(** [prev.current !== null && prev.current !== x] *)
Definition changed_from (prev : option jsstring) (x : jsstring) : bool :=
  match prev with
  | Some p => negb (bool_decide (p = x))
  | None => false
  end.

(** [costCenter || null] *)
Definition or_null (x : jsstring) : option jsstring :=
  if str_falsy x then None else Some x.

(** [prevCostCenter.current !== null &&
     prevCostCenter.current !== (costCenter || null)] *)
Definition changed_from_nullable (prev : option jsstring) (x : jsstring) : bool :=
  match prev with
  | Some p => negb (bool_decide (Some p = or_null x))
  | None => false
  end.

(** The four effects.  Each reads the watched values [w] of the render that
    scheduled it, writes to the form store and updates its own ref. *)
Definition effect_campaignType (w : Watched) (s : FormValues * Refs)
  : FormValues * Refs :=
  let v := if changed_from (prevCampaignType s.2) (w_campaignType w)
           then setValue F_adTypeDetail ""
                  (setValue F_adType "" (setValue F_campaignSource "" s.1))
           else s.1 in
  (v, {| prevCampaignType := Some (w_campaignType w);
         prevCampaignSource := prevCampaignSource s.2;
         prevAdType := prevAdType s.2;
         prevCostCenter := prevCostCenter s.2 |}).

Definition effect_campaignSource (w : Watched) (s : FormValues * Refs)
  : FormValues * Refs :=
  let v := if changed_from (prevCampaignSource s.2) (w_campaignSource w)
           then setValue F_adTypeDetail "" (setValue F_adType "" s.1)
           else s.1 in
  (v, {| prevCampaignType := prevCampaignType s.2;
         prevCampaignSource := Some (w_campaignSource w);
         prevAdType := prevAdType s.2;
         prevCostCenter := prevCostCenter s.2 |}).

Definition effect_adType (w : Watched) (s : FormValues * Refs)
  : FormValues * Refs :=
  let v := if changed_from (prevAdType s.2) (w_adType w)
           then setValue F_adTypeDetail "" s.1
           else s.1 in
  (v, {| prevCampaignType := prevCampaignType s.2;
         prevCampaignSource := prevCampaignSource s.2;
         prevAdType := Some (w_adType w);
         prevCostCenter := prevCostCenter s.2 |}).

Definition effect_costCenter (w : Watched) (s : FormValues * Refs)
  : FormValues * Refs :=
  let v := if changed_from_nullable (prevCostCenter s.2) (w_costCenter w)
           then setValue F_subLedger "" s.1
           else s.1 in
  (v, {| prevCampaignType := prevCampaignType s.2;
         prevCampaignSource := prevCampaignSource s.2;
         prevAdType := prevAdType s.2;
         prevCostCenter := or_null (w_costCenter w) |}).

(** State of the mounted component: the form store, the refs, and the
    watched values of the last render ([None] before the first one). *)
Record FormState := {
  values : FormValues;
  refs : Refs;
  rendered : option Watched
}.

(** An effect runs after a render when the component has just mounted or
    when its dependency differs from the one of the previous render. *)
Definition dep_changed (last : option Watched) (w : Watched)
    (dep : Watched -> jsstring) : bool :=
  match last with
  | None => true
  | Some w0 => negb (bool_decide (dep w0 = dep w))
  end.

Definition run_effect (last : option Watched) (w : Watched)
    (dep : Watched -> jsstring)
    (effect : Watched -> FormValues * Refs -> FormValues * Refs)
    (s : FormValues * Refs) : FormValues * Refs :=
  if dep_changed last w dep then effect w s else s.

(** One render followed by its effects, in declaration order. *)
Definition render (st : FormState) : FormState :=
  let w := watch (values st) in
  let s0 := (values st, refs st) in
  let s1 := run_effect (rendered st) w w_campaignType effect_campaignType s0 in
  let s2 := run_effect (rendered st) w w_campaignSource effect_campaignSource s1 in
  let s3 := run_effect (rendered st) w w_adType effect_adType s2 in
  let s4 := run_effect (rendered st) w w_costCenter effect_costCenter s3 in
  {| values := s4.1; refs := s4.2; rendered := Some w |}.

(** The component is at rest when the store holds what was last rendered. *)
Definition at_rest (st : FormState) : bool :=
  bool_decide (rendered st = Some (watch (values st))).

(** Re-render until the store is at rest. *)
Fixpoint settle (fuel : nat) (st : FormState) : option FormState :=
  if at_rest st then Some st
  else
    match fuel with
    | O => None
    | S fuel' => settle fuel' (render st)
    end.

(** Renders that are always enough (see [settle_total]). *)
Definition render_budget : nat := 3.

(** Mounting the component with an optional draft. *)
Definition mount (d : InitialData) : option FormState :=
  settle render_budget
    {| values := defaultValues d;
       refs := {| prevCampaignType := None; prevCampaignSource := None;
                  prevAdType := None; prevCostCenter := None |};
       rendered := None |}.

(** A committed change: [form.setValue(f, x)] followed by the renders and
    effects it triggers. *)
Definition commit (f : Field) (x : jsstring) (st : FormState)
  : option FormState :=
  settle render_budget
    {| values := setValue f x (values st); refs := refs st;
       rendered := rendered st |}.

(** What each select offers ([SelectItem]s) in a given store. *)
Definition options (v : FormValues) (f : Field) : completion (list jsstring) :=
  match f with
  | F_campaignType => Return campaignTypes
  | F_campaignSource => filteredCampaignSources (campaignType v)
  | F_adType => filteredAdTypes (campaignType v) (campaignSource v)
  | F_adTypeDetail => filteredAdTypeDetails (campaignType v) (adType v)
  | F_costCenter => Return costCenters
  | F_subLedger => filteredSubLedgers (costCenter v)
  end.

(** States reachable from a draft by picking offered options. *)
Inductive reachable (d : InitialData) : FormState -> Prop :=
  | reach_mount st :
      mount d = Some st -> reachable d st
  | reach_select st f x st' :
      reachable d st ->
      offered x (options (values st) f) ->
      commit f x st = Some st' ->
      reachable d st'.

(** The hierarchy invariant as the data model words it. *)
Definition hierarchy_invariant (v : FormValues) : Prop :=
  offered (campaignSource v) (filteredCampaignSources (campaignType v))
  /\ offered (adType v) (filteredAdTypes (campaignType v) (campaignSource v))
  /\ offered (adTypeDetail v) (filteredAdTypeDetails (campaignType v) (adType v))
  /\ offered (subLedger v) (filteredSubLedgers (costCenter v)).

(** A child field is empty or among the options of its parent. *)
Definition empty_or_offered (x : jsstring) (r : completion (list jsstring))
  : Prop :=
  x = ""%js \/ offered x r.

Definition hierarchy_respected (v : FormValues) : Prop :=
  empty_or_offered (campaignSource v)
    (filteredCampaignSources (campaignType v))
  /\ empty_or_offered (adType v)
       (filteredAdTypes (campaignType v) (campaignSource v))
  /\ empty_or_offered (adTypeDetail v)
       (filteredAdTypeDetails (campaignType v) (adType v))
  /\ empty_or_offered (subLedger v) (filteredSubLedgers (costCenter v)).
(* ===================================================================== *)
(** ** Values held by form fields and request bodies                      *)
(* ===================================================================== *)

Inductive value :=
  | VUndefined
  | VNull
  | VBool (b : bool)
  | VString (s : jsstring)
  | VDate (time : Z).

#[global] Instance value_eq_dec : EqDecision value.
Proof. solve_decision. Defined.

(** [!!x] *)
Definition truthy (x : value) : bool :=
  match x with
  | VUndefined | VNull => false
  | VBool b => b
  | VString s => negb (str_falsy s)
  | VDate _ => true
  end.

(** A plain data object: its own enumerable properties. *)
Abbreviation object := (gmap jsstring value).

(** [o.k] for a key that [Object.prototype] does not define. *)
Definition field (o : object) (k : jsstring) : value :=
  default VUndefined (o !! k).

(* ===================================================================== *)
(** ** The schema combinators used by the sources                         *)
(* ===================================================================== *)

Inductive IssueCode := invalid_type | too_small | invalid_string | custom.

Record Issue := {
  code : IssueCode;
  path : list jsstring;
  message : jsstring
}.

(** A parse is [valid], [dirty] (issues were reported but parsing went on)
    or [aborted] (the value has the wrong type). *)
Inductive ParseStatus := valid | dirty | aborted.

Definition merge_status (a b : ParseStatus) : ParseStatus :=
  match a, b with
  | aborted, _ | _, aborted => aborted
  | dirty, _ | _, dirty => dirty
  | valid, valid => valid
  end.

Inductive StringCheck :=
  | min1 (msg : jsstring)   (* .min(1, msg) *)
  | url (msg : jsstring).   (* .url(msg) *)

Inductive ZodType :=
  | z_string (checks : list StringCheck)
  | z_boolean
  | z_date (required_error : option jsstring)
  | z_optional (inner : ZodType)
  | z_nullable (inner : ZodType).

Definition type_name (x : value) : jsstring :=
  match x with
  | VUndefined => "undefined"
  | VNull => "null"
  | VBool _ => "boolean"
  | VString _ => "string"
  | VDate _ => "date"
  end.

Definition js_append (a b : jsstring) : jsstring :=
  JsString (units a ++ units b).

(** Default message of an [invalid_type] issue. *)
Definition invalid_type_message (expected : jsstring) (x : value) : jsstring :=
  match x with
  | VUndefined => "Required"
  | _ => js_append (js_append (js_append "Expected " expected) ", received ")
           (type_name x)
  end.

Section Schemas.

(** Whether [new URL(s)] succeeds.  URL parsing is left abstract. *)
Variable isUrl : jsstring -> bool.

Definition run_check (p : list jsstring) (s : jsstring) (c : StringCheck)
  : list Issue :=
  match c with
  | min1 msg =>
      if (length (units s) <? 1)%nat
      then [ {| code := too_small; path := p; message := msg |} ] else []
  | url msg =>
      if isUrl s then []
      else [ {| code := invalid_string; path := p; message := msg |} ]
  end.

(** Parsing one value at path [p]: the status and the issues reported. *)
Fixpoint parse (t : ZodType) (p : list jsstring) (x : value)
  : ParseStatus * list Issue :=
  match t with
  | z_string checks =>
      match x with
      | VString s =>
          let issues := flat_map (run_check p s) checks in
          (match issues with [] => valid | _ => dirty end, issues)
      | _ => (aborted, [ {| code := invalid_type; path := p;
                            message := invalid_type_message "string" x |} ])
      end
  | z_boolean =>
      match x with
      | VBool _ => (valid, [])
      | _ => (aborted, [ {| code := invalid_type; path := p;
                            message := invalid_type_message "boolean" x |} ])
      end
  | z_date required_error =>
      match x with
      | VDate _ => (valid, [])
      | VUndefined =>
          (aborted, [ {| code := invalid_type; path := p;
                         message := default "Required"%js required_error |} ])
      | _ => (aborted, [ {| code := invalid_type; path := p;
                            message := invalid_type_message "date" x |} ])
      end
  | z_optional inner =>
      match x with
      | VUndefined => (valid, [])
      | _ => parse inner p x
      end
  | z_nullable inner =>
      match x with
      | VNull => (valid, [])
      | _ => parse inner p x
      end
  end.

(** [z.object(shape)]: every key of the shape is parsed, in order; all
    issues are kept; the object is aborted as soon as one value is. *)
Definition ObjectShape := list (jsstring * ZodType).

Fixpoint parse_object (shape : ObjectShape) (data : object)
  : ParseStatus * list Issue :=
  match shape with
  | [] => (valid, [])
  | (key, t) :: shape' =>
      let r := parse t [key] (field data key) in
      let rs := parse_object shape' data in
      (merge_status r.1 rs.1, r.2 ++ rs.2)
  end.

(** [schema.refine(check, {message, path})]: the check is skipped when the
    object was aborted; a failed check reports one [custom] issue. *)
Definition refine (shape : ObjectShape) (check : object -> bool)
    (msg : jsstring) (p : list jsstring) (data : object)
  : ParseStatus * list Issue :=
  let r := parse_object shape data in
  match r.1 with
  | aborted => r
  | _ =>
      if check data then r
      else (dirty, r.2 ++ [ {| code := custom; path := p; message := msg |} ])
  end.

(** [campaignFormSchema] *)
Definition campaignFormShape : ObjectShape :=
  [ ("baseUrl", z_string [url "Must be a valid URL"]);
    ("anchorTag", z_optional (z_string []));
    ("campaignType", z_string [min1 "Campaign type is required"]);
    ("campaignSource", z_string [min1 "Campaign source is required"]);
    ("adType", z_string [min1 "Ad type is required"]);
    ("adTypeDetail", z_optional (z_string []));
    ("targeting", z_boolean);
    ("brand1", z_string [min1 "Brand 1 is required"]);
    ("brand2", z_optional (z_string []));
    ("brand3", z_optional (z_string []));
    ("productCategory", z_string [min1 "Product category is required"]);
    ("productBrand", z_optional (z_string []));
    ("campaignOwner", z_string [min1 "Campaign owner is required"]);
    ("startDate", z_date (Some "Start date is required"));
    ("endDate", z_optional (z_date None));
    ("campaignNotes", z_string [min1 "Campaign notes are required"]);
    ("projectReferenceNumber",
       z_string [min1 "Project reference number is required"]);
    ("budget", z_optional (z_string []));
    ("industry", z_string [min1 "Industry is required"]);
    ("tactic", z_string [min1 "Tactic is required"]);
    ("costCenter", z_optional (z_string []));
    ("subLedger", z_optional (z_string []));
    ("partnering", z_boolean);
    ("partnerName", z_optional (z_string []));
    ("thirdParty", z_boolean);
    ("thirdPartyName", z_optional (z_string [])) ]%js.

(** [x && x.trim() !== ''] for a field the object schema has accepted as an
    optional string. *)
Definition filled_after_trim (x : value) : bool :=
  match x with
  | VString s => negb (str_falsy s) && negb (bool_decide (trim s = ""%js))
  | _ => false
  end.

(** The refinement: Sub Ledger is required when Cost Center is selected. *)
Definition subLedgerRule (data : object) : bool :=
  if filled_after_trim (field data "costCenter")
  then filled_after_trim (field data "subLedger")
  else true.

Definition subLedgerMessage : jsstring :=
  "Sub Ledger is required when Cost Center is selected".

Definition campaignFormSchema (data : object) : ParseStatus * list Issue :=
  refine campaignFormShape subLedgerRule subLedgerMessage ["subLedger"%js] data.

(** Issues of a submission; the empty list means the draft is accepted. *)
Definition validate (data : object) : list Issue :=
  (campaignFormSchema data).2.

(** The resolver keeps, for each field, the first issue reported on it. *)
Definition fieldErrors (issues : list Issue) : gmap jsstring jsstring :=
  foldr (fun i errors =>
           match path i with
           | k :: _ => <[ k := message i ]> errors
           | [] => errors
           end) ∅ issues.

(** [form.handleSubmit(handleSubmit)]: the callback receives the draft when
    validation succeeds; otherwise the field errors are published. *)
Inductive Submission :=
  | Accepted (data : object)
  | Rejected (errors : gmap jsstring jsstring).

Definition submit (data : object) : Submission :=
  match validate data with
  | [] => Accepted data
  | issues => Rejected (fieldErrors issues)
  end.

(** [insertPartnerSchema] and [insertThirdPartySchema]: the columns of the
    table without [id], [createdAt] and [updatedAt]. *)
Definition insertReferenceShape : ObjectShape :=
  [ ("name", z_string []);
    ("description", z_optional (z_nullable (z_string []))) ]%js.

End Schemas.

(* ===================================================================== *)
(** ** Field status                                                       *)
(* ===================================================================== *)

(** The effect that recomputes [completedFields] from [form.watch()]. *)
Definition is_completed (x : value) : bool :=
  negb (bool_decide (x = VString ""))
  && negb (bool_decide (x = VUndefined))
  && negb (bool_decide (x = VNull)).

Definition completedFields (formValues : object) : gset jsstring :=
  foldr (fun kv acc => if is_completed kv.2 then {[ kv.1 ]} ∪ acc else acc)
        ∅ (map_to_list formValues).

Definition baseRequiredFields : list jsstring :=
  [ "baseUrl"; "campaignType"; "campaignSource"; "adType";
    "brand1"; "productCategory"; "campaignOwner"; "startDate";
    "campaignNotes"; "projectReferenceNumber"; "industry"; "tactic" ]%js.

Definition isFieldRequired (formValues : object) (fieldName : jsstring) : bool :=
  if bool_decide (fieldName ∈ baseRequiredFields) then true
  else if bool_decide (fieldName = "subLedger"%js)
       then truthy (field formValues "costCenter")
       else false.

Inductive FieldStatus := st_error | st_required | st_completed | st_default.

(** [!!form.formState.errors[fieldName]]: an own entry is an error object;
    an inherited built-in is truthy as well. *)
Definition hasError (errors : gmap jsstring jsstring) (fieldName : jsstring)
  : bool :=
  match get_property errors fieldName with
  | Own _ | Inherited => true
  | Missing => false
  end.

Definition getFieldStatus (errors : gmap jsstring jsstring)
    (completed : gset jsstring) (formValues : object)
    (fieldName : jsstring) : FieldStatus :=
  let hasError := hasError errors fieldName in
  let isCompleted := bool_decide (fieldName ∈ completed) in
  let isRequired := isFieldRequired formValues fieldName in
  if hasError then st_error
  else if isRequired && negb isCompleted then st_required
  else if isCompleted then st_completed
  else st_default.

(** The field names of the form (the keys of the schema). *)
Definition formFields : list jsstring :=
  campaignFormShape.*1.

(* ===================================================================== *)
(** ** Reference data: storage, routes and the add-new dialogs            *)
(* ===================================================================== *)

(** The two reference collections have the same columns and the same
    routes; [Kind] selects the table. *)
Inductive Kind := partner | thirdParty.

(** A row of [partners] or [third_parties]. *)
Record ReferenceEntity := {
  id : nat;                      (* gen_random_uuid(): opaque, fresh *)
  name : jsstring;               (* notNull().unique() *)
  description : option jsstring; (* nullable *)
  createdAt : Z;                 (* defaultNow() *)
  updatedAt : Z
}.

(** Calls received by the storage object. *)
Inductive StorageCall :=
  | call_get (k : Kind)
  | call_check (k : Kind) (n : jsstring)
  | call_create (k : Kind) (n : jsstring).

(** The record store: both tables, the id supply, the clock, and the log of
    the storage calls made so far. *)
Record Db := {
  partners : list ReferenceEntity;
  thirdParties : list ReferenceEntity;
  next_id : nat;
  now : Z;
  calls : list StorageCall
}.

Definition table (k : Kind) (db : Db) : list ReferenceEntity :=
  match k with
  | partner => partners db
  | thirdParty => thirdParties db
  end.

Definition log_call (c : StorageCall) (db : Db) : Db :=
  {| partners := partners db; thirdParties := thirdParties db;
     next_id := next_id db; now := now db; calls := calls db ++ [c] |}.

(** [db.select().from(t).where(eq(t.name, name))] *)
Definition select_by_name (n : jsstring) (rows : list ReferenceEntity)
  : list ReferenceEntity :=
  filter (fun r => name r = n) rows.

(** [checkPartnerExists] / [checkThirdPartyExists]:
    [const [existing] = ...; return !!existing]. *)
Definition checkExists (k : Kind) (n : jsstring) (db : Db) : bool * Db :=
  (match select_by_name n (table k db) with
   | _ :: _ => true
   | [] => false
   end,
   log_call (call_check k n) db).

(** [createPartner] / [createThirdParty]: the insert is refused by the
    unique constraint on [name]; otherwise the new row is returned. *)
Definition createEntity (k : Kind) (n : jsstring) (d : option jsstring)
    (db : Db) : option ReferenceEntity * Db :=
  let db := log_call (call_create k n) db in
  match select_by_name n (table k db) with
  | _ :: _ => (None, db)
  | [] =>
      let row := {| id := next_id db; name := n; description := d;
                    createdAt := now db; updatedAt := now db |} in
      (Some row,
       {| partners := match k with
                      | partner => partners db ++ [row]
                      | thirdParty => partners db
                      end;
          thirdParties := match k with
                          | partner => thirdParties db
                          | thirdParty => thirdParties db ++ [row]
                          end;
          next_id := S (next_id db); now := now db; calls := calls db |})
  end.

Inductive ResponseBody :=
  | body_entity (e : ReferenceEntity)
  | body_exists (b : bool)
  | body_error (msg : jsstring).

Record Response := {
  status : nat;
  body : ResponseBody
}.

Definition already_exists_message (k : Kind) : jsstring :=
  match k with
  | partner => "Partner name already exists"
  | thirdParty => "Third party name already exists"
  end.

Definition description_of (x : value) : option jsstring :=
  match x with
  | VString s => Some s
  | _ => None
  end.

(** [insertPartnerSchema.parse(req.body)]: the parsed name and description,
    or the issues carried by the error that is thrown. *)
Definition parse_insert (req_body : object)
  : (jsstring * option jsstring) + list Issue :=
  let r := parse_object (fun _ => true) insertReferenceShape req_body in
  match r.2, field req_body "name" with
  | [], VString n => inl (n, description_of (field req_body "description"))
  | issues, _ => inr issues
  end.

(** Text of the error caught by a route; it plays no role below. *)
Definition parse_error_message (issues : list Issue) : jsstring :=
  match issues with
  | i :: _ => message i
  | [] => ""
  end.

Definition unique_violation_message : jsstring :=
  "duplicate key value violates unique constraint".

(** [POST /api/partners] and [POST /api/third-parties]. *)
Definition post_create (k : Kind) (req_body : object) (db : Db)
  : Response * Db :=
  match parse_insert req_body with
  | inr issues =>
      ({| status := 400; body := body_error (parse_error_message issues) |},
       db)
  | inl (n, d) =>
      let (found, db1) := checkExists k n db in
      if found
      then ({| status := 409;
               body := body_error (already_exists_message k) |}, db1)
      else
        match createEntity k n d db1 with
        | (Some row, db2) => ({| status := 201; body := body_entity row |}, db2)
        | (None, db2) =>
            ({| status := 400; body := body_error unique_violation_message |},
             db2)
        end
  end.

(** [POST /api/partners/check] and [POST /api/third-parties/check], for a
    request body whose [name] is a string ([Some]) or is missing ([None]). *)
Definition post_check (k : Kind) (req_name : option jsstring) (db : Db)
  : Response * Db :=
  match req_name with
  | Some n =>
      if str_falsy n
      then ({| status := 400; body := body_error "Name is required" |}, db)
      else
        let (found, db1) := checkExists k n db in
        ({| status := 200; body := body_exists found |}, db1)
  | None => ({| status := 400; body := body_error "Name is required" |}, db)
  end.

(** Requests issued by the browser. *)
Inductive Request :=
  | POST_create (k : Kind) (n : jsstring).   (* body: { name: n } *)

Inductive Toast :=
  | toast_error (description : jsstring).

Definition name_required_message (k : Kind) : jsstring :=
  match k with
  | partner => "Partner name is required"
  | thirdParty => "Third party name is required"
  end.

(** What the world looks like from the dialog: the requests sent so far, the
    toasts shown, and the record store behind the routes. *)
Record World := {
  network : list Request;
  toasts : list Toast;
  store : Db
}.

(** Outcome of pressing the add button. *)
Inductive AddOutcome :=
  | NameRequired                (* rejected in the dialog *)
  | Responded (r : Response).   (* answer of the route *)

(** [handleAddPartner] / [handleAddThirdParty], with the mutation they start
    followed up to the response of the route. *)
Definition handleAdd (k : Kind) (newName : jsstring) (w : World)
  : AddOutcome * World :=
  if str_falsy (trim newName)
  then (NameRequired,
        {| network := network w;
           toasts := toasts w ++ [toast_error (name_required_message k)];
           store := store w |})
  else
    let n := trim newName in
    let (r, db) := post_create k {[ "name"%js := VString n ]} (store w) in
    (Responded r,
     {| network := network w ++ [POST_create k n];
        toasts := toasts w; store := db |}).

Definition handleAddPartner := handleAdd partner.
Definition handleAddThirdParty := handleAdd thirdParty.

(* ===================================================================== *)
(** ** Definitions used to state the properties                           *)
(* ===================================================================== *)

(** The refs a component at rest holds for the store [v]. *)
Definition refs_of (v : FormValues) : Refs :=
  {| prevCampaignType := Some (campaignType v);
     prevCampaignSource := Some (campaignSource v);
     prevAdType := Some (adType v);
     prevCostCenter := or_null (costCenter v) |}.

(** The state in which every effect has seen the store [v]. *)
Definition synced (v : FormValues) : FormState :=
  {| values := v; refs := refs_of v; rendered := Some (watch v) |}.

(** What a committed change makes of the store once the effects are done. *)
Definition cascade (f : Field) (x : jsstring) (v : FormValues) : FormValues :=
  match f with
  | F_campaignType =>
      if decide (campaignType v = x) then v
      else {| campaignType := x; campaignSource := ""; adType := "";
              adTypeDetail := ""; costCenter := costCenter v;
              subLedger := subLedger v |}
  | F_campaignSource =>
      if decide (campaignSource v = x) then v
      else {| campaignType := campaignType v; campaignSource := x;
              adType := ""; adTypeDetail := ""; costCenter := costCenter v;
              subLedger := subLedger v |}
  | F_adType =>
      if decide (adType v = x) then v
      else {| campaignType := campaignType v;
              campaignSource := campaignSource v; adType := x;
              adTypeDetail := ""; costCenter := costCenter v;
              subLedger := subLedger v |}
  | F_adTypeDetail => setValue F_adTypeDetail x v
  | F_costCenter =>
      if decide (costCenter v = x) then v
      else {| campaignType := campaignType v;
              campaignSource := campaignSource v; adType := adType v;
              adTypeDetail := adTypeDetail v; costCenter := x;
              subLedger := if decide (costCenter v = ""%js)
                           then subLedger v else "" |}
  | F_subLedger => setValue F_subLedger x v
  end.

#[global] Instance offered_dec x r : Decision (offered x r).
Proof. destruct r; cbn; apply _. Defined.

#[global] Instance empty_or_offered_dec x r : Decision (empty_or_offered x r).
Proof. unfold empty_or_offered. apply _. Defined.

#[global] Instance hierarchy_respected_dec v : Decision (hierarchy_respected v).
Proof. unfold hierarchy_respected. apply _. Defined.

#[global] Instance hierarchy_invariant_dec v : Decision (hierarchy_invariant v).
Proof. unfold hierarchy_invariant. apply _. Defined.

Definition banner_draft : InitialData :=
  {| init_campaignType := Some "Display Ads"%js;
     init_campaignSource := Some "Google"%js;
     init_adType := Some "Banner"%js;
     init_adTypeDetail := Some "Standard Banner"%js;
     init_costCenter := None;
     init_subLedger := None |}.

Definition ledger_draft : InitialData :=
  {| init_campaignType := None; init_campaignSource := None;
     init_adType := None; init_adTypeDetail := None;
     init_costCenter := None;
     init_subLedger := Some "Engineering Projects"%js |}.

Definition pending (v : FormValues) : nat :=
  (if decide (campaignSource v = ""%js) then 0 else 1)
  + (if decide (adType v = ""%js) then 0 else 1).

(** A value has the type a schema expects. *)
Fixpoint has_type (t : ZodType) (x : value) : Prop :=
  match t with
  | z_string _ => exists s, x = VString s
  | z_boolean => exists b, x = VBool b
  | z_date _ => exists time, x = VDate time
  | z_optional inner => x = VUndefined \/ has_type inner x
  | z_nullable inner => x = VNull \/ has_type inner x
  end.

(** Every field of the object has the type its schema expects. *)
Definition well_typed (shape : ObjectShape) (data : object) : Prop :=
  Forall (fun kt => has_type kt.2 (field data kt.1)) shape.

(** An optional string that is unset, empty or made of white space. *)
Definition blank (x : value) : Prop :=
  x = VUndefined \/ exists s, x = VString s /\ trim s = ""%js.

Definition refinement_issue (msg : jsstring) (p : list jsstring) : Issue :=
  {| code := custom; path := p; message := msg |}.

(** A complete draft: the one of the submission walk-through, with a cost
    center and a sub-ledger left to the caller. *)
Definition complete_draft : object :=
  list_to_map
    [ ("baseUrl", VString "https://example.com");
      ("campaignType", VString "Display Ads");
      ("campaignSource", VString "Google");
      ("adType", VString "Banner");
      ("adTypeDetail", VString "Standard Banner");
      ("targeting", VBool false);
      ("brand1", VString "Brand A");
      ("productCategory", VString "Hardware");
      ("campaignOwner", VString "Daniel Konig");
      ("startDate", VDate 0);
      ("campaignNotes", VString "launch");
      ("projectReferenceNumber", VString "1234567");
      ("industry", VString "Technology");
      ("tactic", VString "Awareness");
      ("partnering", VBool false);
      ("thirdParty", VBool false) ]%js.

(** A URL check that accepts the URL of [complete_draft] only. *)
Definition is_example_url (s : jsstring) : bool :=
  bool_decide (s = "https://example.com"%js).

#[global] Instance has_type_dec t x : Decision (has_type t x).
Proof.
  induction t; cbn; [destruct x..| |]; try apply _;
    first [ by left; eauto | by right; intros [? ?] ].
Defined.

#[global] Instance well_typed_dec shape data : Decision (well_typed shape data).
Proof. unfold well_typed. apply _. Defined.

Definition empty_db : Db :=
  {| partners := []; thirdParties := []; next_id := 0; now := 0; calls := [] |}.


(* ===================================================================== *)
(** ** Further code: form defaults, acceptance, storage names, sign-in     *)
(* ===================================================================== *)

(** [a] does not come after [b] in the order of [sort]. *)
Definition js_le (a b : jsstring) : Prop := js_ltb b a = false.

(** [form.getValues(f)] *)
Definition getValue (f : Field) (v : FormValues) : jsstring :=
  match f with
  | F_campaignType => campaignType v
  | F_campaignSource => campaignSource v
  | F_adType => adType v
  | F_adTypeDetail => adTypeDetail v
  | F_costCenter => costCenter v
  | F_subLedger => subLedger v
  end.

(** The draft of [CreateCampaignPage], which passes no [initialData]. *)
Definition no_initialData : InitialData :=
  {| init_campaignType := None; init_campaignSource := None;
     init_adType := None; init_adTypeDetail := None;
     init_costCenter := None; init_subLedger := None |}.

(** The fields of the campaign chain and the fields of the ledger chain. *)
Definition in_campaign_chain (f : Field) : bool :=
  match f with
  | F_campaignType | F_campaignSource | F_adType | F_adTypeDetail => true
  | F_costCenter | F_subLedger => false
  end.

(** [x || d] *)
Definition or_default (x d : value) : value := if truthy x then x else d.

(** [initialData?.k] *)
Definition initial_field (initialData : option object) (k : jsstring) : value :=
  match initialData with
  | Some o => field o k
  | None => VUndefined
  end.

(** The [defaultValues] handed to [useForm]. *)
Definition useFormDefaults (initialData : option object) : object :=
  let text k := (k, or_default (initial_field initialData k) (VString "")) in
  let flag k := (k, or_default (initial_field initialData k) (VBool false)) in
  let date k := (k, initial_field initialData k) in
  list_to_map
    [ text "baseUrl"; text "anchorTag"; text "campaignType";
      text "campaignSource"; text "adType"; text "adTypeDetail";
      flag "targeting"; text "brand1"; text "brand2"; text "brand3";
      text "productCategory"; text "productBrand"; text "campaignOwner";
      date "startDate"; date "endDate"; text "campaignNotes";
      text "projectReferenceNumber"; text "budget"; text "industry";
      text "tactic"; text "costCenter"; text "subLedger";
      flag "partnering"; text "partnerName"; flag "thirdParty";
      text "thirdPartyName" ]%js.

(** A string passes a check. *)
Definition check_passes (isUrl : jsstring -> bool) (s : jsstring)
    (c : StringCheck) : Prop :=
  match c with
  | min1 _ => s <> ""%js
  | url _ => isUrl s = true
  end.

(** The values a schema lets through without an issue. *)
Fixpoint accepts (isUrl : jsstring -> bool) (t : ZodType) (x : value) : Prop :=
  match t with
  | z_string checks =>
      exists s, x = VString s /\ Forall (check_passes isUrl s) checks
  | z_boolean => exists b, x = VBool b
  | z_date _ => exists time, x = VDate time
  | z_optional inner => x = VUndefined \/ accepts isUrl inner x
  | z_nullable inner => x = VNull \/ accepts isUrl inner x
  end.

(** The names stored in a table. *)
Definition names (k : Kind) (db : Db) : list jsstring :=
  name <$> table k db.

#[global] Instance Kind_eq_dec : EqDecision Kind.
Proof. solve_decision. Defined.

(** The other table. *)
Definition other (k : Kind) : Kind :=
  match k with
  | partner => thirdParty
  | thirdParty => partner
  end.

(** [s.split(" ")] on code units: the segments between the spaces; there is
    always at least one. *)
Fixpoint split_space (l : list N) : list (list N) :=
  match l with
  | [] => [[]]
  | c :: l' =>
      if (c =? 0x20)%N then [] :: split_space l'
      else
        match split_space l' with
        | seg :: rest => (c :: seg) :: rest
        | [] => [[c]]
        end
  end.

(** [segments.join(" ")] *)
Fixpoint join_space (segments : list (list N)) : list N :=
  match segments with
  | [] => []
  | [seg] => seg
  | seg :: rest => seg ++ 0x20%N :: join_space rest
  end.

(** The account fields the profile fallback reads. *)
Record AccountInfo := {
  homeAccountId : jsstring;
  username : jsstring;
  account_name : option jsstring   (* [name?: string] *)
}.

Record MsalUser := {
  user_id : jsstring;
  email : option jsstring;
  firstName : option jsstring;
  lastName : option jsstring;
  isAdmin : bool
}.

(** The user set by [fetchUserProfile] when the profile request throws. *)
Definition fallbackUser (account : AccountInfo) : MsalUser :=
  {| user_id := homeAccountId account;
     email := Some (username account);
     firstName :=
       (fun n => JsString (hd [] (split_space (units n))))
         <$> account_name account;
     lastName :=
       (fun n => JsString (join_space (tl (split_space (units n)))))
         <$> account_name account;
     isAdmin := false |}.

(* ===================================================================== *)
(** * Properties                                                          *)
(* ===================================================================== *)

(** ** Strings, sorting and property lookup *)

Lemma str_falsy_true (s : jsstring) : str_falsy s = true <-> s = ""%js.
Proof.
  destruct s as [[|c l]]; cbn; split; intros H; try done.
Qed.

Lemma str_falsy_false (s : jsstring) : str_falsy s = false <-> s <> ""%js.
Proof.
  rewrite <- str_falsy_true. destruct (str_falsy s); split; congruence.
Qed.

Lemma trim_empty : trim "" = ""%js.
Proof. reflexivity. Qed.

Lemma trim_nonempty (s : jsstring) : trim s <> ""%js -> s <> ""%js.
Proof. intros H ->. by apply H. Qed.

Lemma elem_of_sort_insert (x y : jsstring) (l : list jsstring) :
  x ∈ sort_insert y l <-> x = y \/ x ∈ l.
Proof.
  induction l as [|z l IH]; cbn.
  - rewrite list_elem_of_singleton, elem_of_nil. tauto.
  - destruct (js_ltb y z); rewrite !elem_of_cons; [done|].
    rewrite IH. tauto.
Qed.

(** Sorting keeps exactly the elements of the list. *)
Lemma elem_of_sort (x : jsstring) (l : list jsstring) :
  x ∈ sort l <-> x ∈ l.
Proof.
  induction l as [|y l IH]; cbn; [done|].
  by rewrite elem_of_sort_insert, IH, elem_of_cons.
Qed.

Lemma sort_nil_inv (l : list jsstring) : sort l = [] -> l = [].
Proof.
  destruct l as [|y l]; [done|]. intros H.
  assert (y ∈ sort (y :: l)) as Hy by (apply elem_of_sort; left).
  rewrite H in Hy. by apply elem_of_nil in Hy.
Qed.

Section Lookup.
Context {A : Type}.
Implicit Types (o : gmap jsstring A) (k : jsstring).

Lemma get_property_own o k a : o !! k = Some a -> get_property o k = Own a.
Proof. unfold get_property. by intros ->. Qed.

Lemma get_property_inherited o k :
  o !! k = None -> k ∈ objectPrototypeKeys -> get_property o k = Inherited.
Proof. unfold get_property. intros -> ?. by rewrite bool_decide_true. Qed.

Lemma get_property_missing o k :
  o !! k = None -> k ∉ objectPrototypeKeys -> get_property o k = Missing.
Proof. unfold get_property. intros -> ?. by rewrite bool_decide_false. Qed.

(** For a key that [Object.prototype] does not define, [in] is a lookup
    among the own properties. *)
Lemma has_property_own o k :
  k ∉ objectPrototypeKeys -> has_property k o = true <-> is_Some (o !! k).
Proof.
  intros Hk. unfold has_property, get_property.
  destruct (o !! k) as [a|]; [by split; eauto|].
  rewrite bool_decide_false by done. split; [done|].
  by intros [? ?].
Qed.

End Lookup.

(** ** Dependent-field resolver *)

(** The resolvers on a campaign type (cost center) that is an own key of the
    table, and on one that is no property at all. *)
Lemma filteredCampaignSources_own (campaignType : jsstring) typeData :
  campaignHierarchy !! campaignType = Some typeData ->
  campaignType <> ""%js ->
  filteredCampaignSources campaignType = Return (sort (sources typeData)).
Proof.
  intros H Hne. unfold filteredCampaignSources, has_property.
  rewrite (get_property_own _ _ _ H).
  by apply str_falsy_false in Hne as ->.
Qed.

Lemma filteredCampaignSources_unknown (campaignType : jsstring) :
  campaignHierarchy !! campaignType = None ->
  campaignType ∉ objectPrototypeKeys ->
  filteredCampaignSources campaignType = Return [].
Proof.
  intros Hnone Hk. unfold filteredCampaignSources, has_property.
  rewrite (get_property_missing _ _ Hnone Hk).
  by rewrite orb_true_r.
Qed.

Lemma filteredAdTypes_own (campaignType campaignSource : jsstring) typeData :
  campaignHierarchy !! campaignType = Some typeData ->
  campaignType <> ""%js -> campaignSource <> ""%js ->
  filteredAdTypes campaignType campaignSource =
    match get_property (adTypes typeData) campaignSource with
    | Own l => Return (sort l)
    | Inherited => TypeError
    | Missing => Return []
    end.
Proof.
  intros H Ht Hs. unfold filteredAdTypes, has_property.
  rewrite (get_property_own _ _ _ H).
  apply str_falsy_false in Ht as ->. apply str_falsy_false in Hs as ->.
  by destruct (get_property (adTypes typeData) campaignSource).
Qed.

Lemma filteredAdTypes_unknown (campaignType campaignSource : jsstring) :
  campaignHierarchy !! campaignType = None ->
  campaignType ∉ objectPrototypeKeys ->
  filteredAdTypes campaignType campaignSource = Return [].
Proof.
  intros Hnone Hk. unfold filteredAdTypes, has_property.
  rewrite (get_property_missing _ _ Hnone Hk).
  by rewrite orb_true_r.
Qed.

Lemma filteredSubLedgers_empty : filteredSubLedgers "" = Return [].
Proof. reflexivity. Qed.

(** The keys of [adTypes] are the sources, for every campaign type. *)
Lemma adTypes_keys_are_sources (campaignType source : jsstring)
    (typeData : TypeData) :
  campaignHierarchy !! campaignType = Some typeData ->
  is_Some (adTypes typeData !! source) <-> source ∈ sources typeData.
Proof.
  intros H. apply elem_of_list_to_map_2 in H.
  unfold campaignHierarchy_entries in H.
  rewrite <- elem_of_dom.
  repeat (apply elem_of_cons in H as [H|H]; [injection H as -> ->; cbn |]);
    try (by apply elem_of_nil in H);
    rewrite ?dom_insert_L, dom_empty_L; set_solver.
Qed.

(** The statement of the resolver contract on the keys that are not
    inherited built-ins: a source outside [sources(campaignType)] has no ad
    types. *)
Lemma filteredAdTypes_unoffered (campaignType campaignSource : jsstring) :
  campaignType ∉ objectPrototypeKeys ->
  campaignSource ∉ objectPrototypeKeys ->
  ¬ offered campaignSource (filteredCampaignSources campaignType) ->
  filteredAdTypes campaignType campaignSource = Return [].
Proof.
  intros Ht Hs Hno.
  destruct (decide (campaignType = ""%js)) as [->|Hte]; [done|].
  destruct (decide (campaignSource = ""%js)) as [->|Hse].
  { unfold filteredAdTypes. by destruct (str_falsy campaignType). }
  destruct (campaignHierarchy !! campaignType) as [typeData|] eqn:Hty.
  - rewrite (filteredAdTypes_own _ _ _ Hty Hte Hse).
    rewrite (filteredCampaignSources_own _ _ Hty Hte) in Hno.
    unfold offered in Hno. rewrite elem_of_sort in Hno.
    rewrite <- (adTypes_keys_are_sources _ _ _ Hty) in Hno.
    rewrite get_property_missing; [done| |done].
    destruct (adTypes typeData !! campaignSource); [|done].
    by destruct Hno.
  - by apply filteredAdTypes_unknown.
Qed.

(** C5 — The resolver does not return the empty list for every pair whose
    source is outside [sources(campaignType)], and a lookup can throw: the
    guards use the [in] operator, which also finds the properties an object
    literal inherits.  With campaign type "Display Ads" the source
    "constructor" is not offered, yet resolving its ad types throws; so does
    resolving the ad types of "Google" under the unknown campaign type
    "constructor". *)
Theorem filteredAdTypes_inherited_key_throws :
  ¬ offered "constructor" (filteredCampaignSources "Display Ads")
  /\ filteredAdTypes "Display Ads" "constructor" = TypeError
  /\ campaignHierarchy !! ("constructor"%js) = None
  /\ filteredAdTypes "constructor" "Google" = TypeError.
Proof.
  split; [|by vm_compute].
  change (filteredCampaignSources "Display Ads")
    with (Return (A := list jsstring) ["Facebook"; "Google"; "LinkedIn"]%js).
  cbn. rewrite !elem_of_cons, elem_of_nil. intros [?|[?|[?|[]]]]; discriminate.
Qed.

(** ** Cascading resets *)

Lemma at_rest_synced (v : FormValues) : at_rest (synced v) = true.
Proof. unfold at_rest. by rewrite bool_decide_true. Qed.

Lemma or_null_spec (x : jsstring) :
  or_null x = if decide (x = ""%js) then None else Some x.
Proof.
  unfold or_null. destruct (decide (x = ""%js)) as [->|H]; [done|].
  by apply str_falsy_false in H as ->.
Qed.

Lemma settle_rest (fuel : nat) (st : FormState) :
  at_rest st = true -> settle fuel st = Some st.
Proof. destruct fuel; cbn [settle]; by intros ->. Qed.

Lemma settle_more (fuel : nat) (st : FormState) :
  at_rest st = false -> settle (S fuel) st = settle fuel (render st).
Proof. cbn [settle]. by intros ->. Qed.

Ltac reduce_records :=
  cbv beta iota zeta delta
    [ watch setValue synced refs_of values refs rendered
      campaignType campaignSource adType adTypeDetail costCenter subLedger
      prevCampaignType prevCampaignSource prevAdType prevCostCenter
      w_campaignType w_campaignSource w_adType w_costCenter
      fst snd negb ] in *.

Ltac decide_comparisons :=
  repeat first
    [ done
    | congruence
    | progress simplify_eq
    | case_bool_decide
    | case_decide ];
  cbv beta iota.

(** Evaluates the innermost pending effect of a render. *)
Ltac eval_effect :=
  match goal with
  | |- context [run_effect ?l ?w ?d ?e (?v, ?r)] =>
      let t := eval cbv beta iota zeta delta
                 [ run_effect dep_changed effect_campaignType
                   effect_campaignSource effect_adType effect_costCenter
                   changed_from changed_from_nullable setValue
                   campaignType campaignSource adType adTypeDetail costCenter
                   subLedger prevCampaignType prevCampaignSource prevAdType
                   prevCostCenter w_campaignType w_campaignSource w_adType
                   w_costCenter fst snd negb ]
               in (run_effect l w d e (v, r)) in
      change (run_effect l w d e (v, r)) with t;
      rewrite ?or_null_spec; decide_comparisons
  end.

Ltac eval_at_rest H :=
  unfold at_rest in H; reduce_records;
  first [ apply bool_decide_eq_true in H | apply bool_decide_eq_false in H ];
  decide_comparisons.

(** Runs [settle] render by render, deciding each comparison as it shows. *)
Ltac run_settle :=
  lazymatch goal with
  | |- settle ?n ?st = _ =>
      let Hrest := fresh "Hrest" in
      destruct (at_rest st) eqn:Hrest;
      [ rewrite (settle_rest _ _ Hrest); eval_at_rest Hrest
      | lazymatch n with
        | O => exfalso; eval_at_rest Hrest
        | S _ =>
            rewrite (settle_more _ _ Hrest); eval_at_rest Hrest;
            unfold render; reduce_records;
            do 4 eval_effect; reduce_records; run_settle
        end ]
  end.

Lemma mount_synced (d : InitialData) :
  mount d = Some (synced (defaultValues d)).
Proof.
  unfold mount, render_budget.
  generalize (defaultValues d). intros [ct cs at_ ad cc sl].
  run_settle. all: rewrite ?or_null_spec; decide_comparisons.
Qed.

Lemma commit_synced (f : Field) (x : jsstring) (v : FormValues) :
  commit f x (synced v) = Some (synced (cascade f x v)).
Proof.
  destruct v as [ct cs at_ ad cc sl].
  unfold commit, render_budget, cascade.
  destruct f; reduce_records; run_settle;
    rewrite ?or_null_spec in *; decide_comparisons.
Qed.

(** Every reachable state is at rest, with the refs holding the store. *)
Lemma reachable_synced (d : InitialData) (st : FormState) :
  reachable d st -> st = synced (values st).
Proof.
  induction 1 as [st Hm|st f x st' _ IH _ Hc].
  - rewrite mount_synced in Hm. by injection Hm as <-.
  - rewrite IH, commit_synced in Hc. by injection Hc as <-.
Qed.

Lemma not_offered_nil (x : jsstring) : ¬ offered x (Return []).
Proof. cbn. apply not_elem_of_nil. Qed.

(** One committed selection keeps every child empty or valid. *)
Lemma cascade_respected (f : Field) (x : jsstring) (v : FormValues) :
  hierarchy_respected v ->
  offered x (options v f) ->
  hierarchy_respected (cascade f x v).
Proof.
  destruct v as [ct cs at_ ad cc sl].
  unfold hierarchy_respected, empty_or_offered, cascade, options.
  cbn [campaignType campaignSource adType adTypeDetail costCenter subLedger
       setValue].
  intros (Hs & Ha & Hd & Hl) Hx.
  destruct f; repeat case_decide; subst; cbn [campaignType campaignSource
    adType adTypeDetail costCenter subLedger]; try tauto.
  destruct Hl as [->|Hl]; [tauto|].
  by apply not_offered_nil in Hl.
Qed.

(** X5 — Mounting the form never resets anything: for every draft the store
    after the first renders holds the default values of that draft. *)
Lemma mount_keeps_draft (d : InitialData) :
  exists st, mount d = Some st /\ values st = defaultValues d.
Proof. eexists. split; [apply mount_synced|done]. Qed.







(** *** Resets fired by a change of a parent field *)

(** X6 — On a form at rest, committing a campaign type different from the
    current one clears the campaign source, the ad type and the ad-type
    detail. *)
Lemma campaignType_change_clears (v : FormValues) (x : jsstring) :
  campaignType v <> x ->
  exists st, commit F_campaignType x (synced v) = Some st
    /\ campaignType (values st) = x
    /\ campaignSource (values st) = ""%js
    /\ adType (values st) = ""%js
    /\ adTypeDetail (values st) = ""%js.
Proof.
  intros Hx. eexists. split; [apply commit_synced|].
  unfold cascade. by rewrite decide_False.
Qed.

(** X7 — On a form at rest, committing a campaign source different from the
    current one clears the ad type and the ad-type detail. *)
Lemma campaignSource_change_clears (v : FormValues) (x : jsstring) :
  campaignSource v <> x ->
  exists st, commit F_campaignSource x (synced v) = Some st
    /\ campaignSource (values st) = x
    /\ adType (values st) = ""%js
    /\ adTypeDetail (values st) = ""%js.
Proof.
  intros Hx. eexists. split; [apply commit_synced|].
  unfold cascade. by rewrite decide_False.
Qed.

(** X8 — On a form at rest, committing an ad type different from the current
    one clears the ad-type detail. *)
Lemma adType_change_clears (v : FormValues) (x : jsstring) :
  adType v <> x ->
  exists st, commit F_adType x (synced v) = Some st
    /\ adType (values st) = x
    /\ adTypeDetail (values st) = ""%js.
Proof.
  intros Hx. eexists. split; [apply commit_synced|].
  unfold cascade. by rewrite decide_False.
Qed.

(** X9 — On a form at rest whose cost center is non-empty, committing a
    different cost center clears the sub-ledger. *)
Lemma costCenter_change_clears (v : FormValues) (x : jsstring) :
  costCenter v <> ""%js ->
  costCenter v <> x ->
  exists st, commit F_costCenter x (synced v) = Some st
    /\ costCenter (values st) = x
    /\ subLedger (values st) = ""%js.
Proof.
  intros Hne Hx. eexists. split; [apply commit_synced|].
  unfold cascade. rewrite decide_False by done. cbn.
  by rewrite decide_False.
Qed.

(** ... and is kept when the cost center was empty. *)
Lemma costCenter_first_choice_keeps (v : FormValues) (x : jsstring) :
  costCenter v = ""%js ->
  exists st, commit F_costCenter x (synced v) = Some st
    /\ costCenter (values st) = x
    /\ subLedger (values st) = subLedger v.
Proof.
  intros He. eexists. split; [apply commit_synced|].
  unfold cascade. case_decide; [by subst|]. cbn.
  by rewrite decide_True.
Qed.

(** C4 — A committed change of the cost center does not clear the
    sub-ledger when the previous cost center was the empty string: the ref is
    then [null], which the guard takes for the state before the first
    render.  A draft loaded with an empty cost center and the sub-ledger
    "Engineering Projects" keeps that sub-ledger after the cost center is
    set to "Marketing", although it is not a sub-ledger of Marketing. *)
Theorem costCenter_change_from_empty_keeps_subLedger :
  exists st0 st1,
    mount ledger_draft = Some st0
    /\ costCenter (values st0) = ""%js
    /\ commit F_costCenter "Marketing" st0 = Some st1
    /\ costCenter (values st1) = "Marketing"%js
    /\ subLedger (values st1) = "Engineering Projects"%js
    /\ ¬ offered "Engineering Projects" (filteredSubLedgers "Marketing").
Proof.
  do 2 eexists. split; [by vm_compute|]. split; [done|].
  split; [by vm_compute|]. split; [done|]. split; [done|].
  intros H. apply (bool_decide_pack _) in H. by vm_compute in H.
Qed.

(** *** Rendering always comes to rest *)

Lemma render_shape (st : FormState) :
  rendered (render st) = Some (watch (values st))
  /\ exists b1 b2 b3 b4 : bool,
      values (render st) =
        {| campaignType := campaignType (values st);
           campaignSource := if b1 then "" else campaignSource (values st);
           adType := if b1 || b2 then "" else adType (values st);
           adTypeDetail :=
             if b1 || b2 || b3 then "" else adTypeDetail (values st);
           costCenter := costCenter (values st);
           subLedger := if b4 then "" else subLedger (values st) |}.
Proof.
  split; [done|].
  destruct st as [[ct cs at_ ad cc sl] r l]. unfold render.
  cbn [values refs rendered].
  do 4 (match goal with
        | |- context [run_effect ?l ?w ?d ?e (?v, ?r)] =>
            let t := eval cbv beta iota zeta delta
                       [ run_effect effect_campaignType effect_campaignSource
                         effect_adType effect_costCenter setValue
                         campaignType campaignSource adType adTypeDetail
                         costCenter subLedger fst snd ]
                     in (run_effect l w d e (v, r)) in
            change (run_effect l w d e (v, r)) with t;
            repeat match goal with
                   | |- context [if ?c then _ else _] => destruct c
                   end
        end).
  all: cbn [fst snd].
  all: first
    [ by exists false, false, false, false | by exists false, false, false, true
    | by exists false, false, true, false | by exists false, false, true, true
    | by exists false, true, false, false | by exists false, true, false, true
    | by exists false, true, true, false | by exists false, true, true, true
    | by exists true, false, false, false | by exists true, false, false, true
    | by exists true, false, true, false | by exists true, false, true, true
    | by exists true, true, false, false | by exists true, true, false, true
    | by exists true, true, true, false | by exists true, true, true, true ].
Qed.

Lemma render_progress (st : FormState) :
  at_rest (render st) = false ->
  pending (values (render st)) < pending (values st).
Proof.
  destruct (render_shape st) as (Hr & b1 & b2 & b3 & b4 & Hv).
  unfold at_rest. rewrite Hr, Hv. clear Hr Hv.
  destruct (values st) as [ct cs at_ ad cc sl].
  unfold pending, watch.
  cbn [campaignType campaignSource adType adTypeDetail costCenter subLedger].
  intros H. apply bool_decide_eq_false in H.
  destruct b1, b2; cbn [orb] in *; repeat case_decide; subst;
    first [ lia | by destruct H ].
Qed.

Lemma settle_rendered (n : nat) (st : FormState) :
  pending (values st) <= n -> is_Some (settle n (render st)).
Proof.
  revert st. induction n as [|n IH]; intros st Hn.
  - destruct (at_rest (render st)) eqn:Hrest.
    + rewrite settle_rest by done. eauto.
    + apply render_progress in Hrest. lia.
  - destruct (at_rest (render st)) eqn:Hrest.
    + rewrite settle_rest by done. eauto.
    + rewrite settle_more by done. apply IH.
      apply render_progress in Hrest. lia.
Qed.

(** Three renders are always enough, from any state. *)
Lemma settle_total (st : FormState) : is_Some (settle render_budget st).
Proof.
  unfold render_budget.
  destruct (at_rest st) eqn:Hrest.
  - rewrite settle_rest by done. eauto.
  - rewrite settle_more by done. apply settle_rendered.
    unfold pending. repeat case_decide; lia.
Qed.

Lemma mount_total (d : InitialData) : is_Some (mount d).
Proof. apply settle_total. Qed.

Lemma commit_total (f : Field) (x : jsstring) (st : FormState) :
  is_Some (commit f x st).
Proof. apply settle_total. Qed.

(** ** Field status *)

Lemma not_inherited_formFields (f : jsstring) :
  f ∈ formFields -> f ∉ objectPrototypeKeys.
Proof.
  intros Hf Hk. revert Hf.
  unfold objectPrototypeKeys in Hk.
  repeat (apply elem_of_cons in Hk as [->|Hk];
          [by apply (bool_decide_eq_false _); vm_compute|]).
  by apply elem_of_nil in Hk.
Qed.

Lemma hasError_own (errors : gmap jsstring jsstring) (f : jsstring) :
  f ∉ objectPrototypeKeys ->
  hasError errors f = true <-> is_Some (errors !! f).
Proof.
  intros Hk. unfold hasError, get_property.
  destruct (errors !! f); [by split; eauto|].
  rewrite bool_decide_false by done. split; [done|]. by intros [? ?].
Qed.

Lemma field_insert_eq (o : object) (k : jsstring) (x : value) :
  field (<[k := x]> o) k = x.
Proof. unfold field. by rewrite lookup_insert_eq. Qed.

Lemma field_insert_ne (o : object) (k k' : jsstring) (x : value) :
  k <> k' -> field (<[k := x]> o) k' = field o k'.
Proof. intros. unfold field. by rewrite lookup_insert_ne. Qed.

(** C6 — For every cost center value, the empty string included, the
    sub-ledger is reported required exactly when the cost center is
    non-empty (and is not required when the cost center is unset); for every
    other field the answer does not depend on the form state: it is required
    exactly when it is one of the base required fields. *)
Theorem subLedger_required_iff_costCenter (formValues : object) :
  (forall s : jsstring,
     isFieldRequired (<["costCenter"%js := VString s]> formValues) "subLedger"
       = true <-> s <> ""%js)
  /\ isFieldRequired (delete "costCenter"%js formValues) "subLedger" = false
  /\ (forall (fieldName : jsstring) (formValues' : object),
        fieldName <> "subLedger"%js ->
        isFieldRequired formValues fieldName
        = isFieldRequired formValues' fieldName
        /\ (isFieldRequired formValues fieldName = true
            <-> fieldName ∈ baseRequiredFields)).
Proof.
  split; [|split].
  - intros s. unfold isFieldRequired.
    rewrite bool_decide_false by (apply (bool_decide_eq_false _); by vm_compute).
    rewrite bool_decide_true by done. rewrite field_insert_eq. cbn.
    rewrite negb_true_iff. apply str_falsy_false.
  - unfold isFieldRequired, field.
    rewrite bool_decide_false by (apply (bool_decide_eq_false _); by vm_compute).
    rewrite bool_decide_true by done. by rewrite lookup_delete_eq.
  - intros f fv' Hf. unfold isFieldRequired.
    case_bool_decide; [done|].
    rewrite bool_decide_false by done. split; [done|]. by split.
Qed.

(** The partner name is as required with a cost center as without. *)
Lemma subLedger_required_iff_costCenter_witness :
  isFieldRequired {[ "costCenter"%js := VString "Engineering" ]} "partnerName"
  = isFieldRequired ∅ "partnerName".
Proof.
  apply (subLedger_required_iff_costCenter
           {[ "costCenter"%js := VString "Engineering" ]}).
  by vm_compute.
Defined.

(** C9 — For every field of the form the status follows a fixed
    precedence: a validation error gives [error] whatever the rest; without
    an error, a required field that is not completed gives [required]; a
    completed one gives [completed]; a field that is neither required nor
    completed gives [default].  The four cases cover every combination. *)
Theorem getFieldStatus_precedence (errors : gmap jsstring jsstring)
    (completed : gset jsstring) (formValues : object) (fieldName : jsstring) :
  fieldName ∈ formFields ->
  let status := getFieldStatus errors completed formValues fieldName in
  let required := isFieldRequired formValues fieldName = true in
  (is_Some (errors !! fieldName) -> status = st_error)
  /\ (errors !! fieldName = None -> required -> fieldName ∉ completed ->
      status = st_required)
  /\ (errors !! fieldName = None -> fieldName ∈ completed ->
      status = st_completed)
  /\ (errors !! fieldName = None -> ¬ required -> fieldName ∉ completed ->
      status = st_default).
Proof.
  intros Hf status required. subst status required.
  apply not_inherited_formFields in Hf.
  unfold getFieldStatus.
  destruct (hasError errors fieldName) eqn:He.
  - apply (hasError_own _ _ Hf) in He as [e He].
    repeat split; intros; congruence.
  - assert (errors !! fieldName = None) as Hn.
    { destruct (errors !! fieldName) eqn:E; [|done].
      assert (hasError errors fieldName = true) by (apply hasError_own; eauto).
      congruence. }
    split; [intros [? ?]; congruence|].
    destruct (isFieldRequired formValues fieldName);
      case_bool_decide; cbn; repeat split; intros; done.
Qed.

(** The sub-ledger of a form with a cost center and nothing else. *)
Lemma getFieldStatus_precedence_witness :
  getFieldStatus ∅ ∅ {[ "costCenter"%js := VString "Engineering" ]} "subLedger"
  = st_required.
Proof.
  apply (getFieldStatus_precedence ∅ ∅
           {[ "costCenter"%js := VString "Engineering" ]} "subLedger").
  - apply (bool_decide_unpack _). by vm_compute.
  - reflexivity.
  - reflexivity.
  - apply not_elem_of_empty.
Defined.

Lemma is_completed_spec (x : value) :
  is_completed x = true <->
  x <> VString "" /\ x <> VUndefined /\ x <> VNull.
Proof.
  unfold is_completed. rewrite !andb_true_iff, !negb_true_iff.
  rewrite !bool_decide_eq_false. tauto.
Qed.

Lemma elem_of_completed_entries (k : jsstring)
    (entries : list (jsstring * value)) :
  k ∈ foldr (fun kv (acc : gset jsstring) =>
               if is_completed kv.2 then {[ kv.1 ]} ∪ acc else acc)
            ∅ entries
  <-> exists x, (k, x) ∈ entries /\ is_completed x = true.
Proof.
  induction entries as [|[k' x'] entries IH]; cbn.
  - split; [set_solver|]. intros (x & H & _). by apply elem_of_nil in H.
  - destruct (is_completed x') eqn:Hx.
    + rewrite elem_of_union, elem_of_singleton, IH. split.
      * intros [->|(x & H & Hc)]; [exists x'|exists x];
          (split; [|done]); [left|by right].
      * intros (x & H & Hc). apply elem_of_cons in H as [H|H].
        -- left. congruence.
        -- right. eauto.
    + rewrite IH. split.
      * intros (x & H & Hc). exists x. split; [by right|done].
      * intros (x & H & Hc). apply elem_of_cons in H as [H|H]; [|eauto].
        congruence.
Qed.

(** C10 — A field is tracked as completed exactly when it has a value that
    is not the empty string, not [undefined] and not [null]; a boolean field
    is therefore completed whatever its value, [false] included. *)
Theorem completedFields_spec (formValues : object) (key : jsstring) :
  (key ∈ completedFields formValues <->
   exists x, formValues !! key = Some x
             /\ x <> VString "" /\ x <> VUndefined /\ x <> VNull)
  /\ (forall b : bool,
        formValues !! key = Some (VBool b) ->
        key ∈ completedFields formValues).
Proof.
  assert (key ∈ completedFields formValues <->
          exists x, formValues !! key = Some x
                    /\ x <> VString "" /\ x <> VUndefined /\ x <> VNull) as H.
  { unfold completedFields. rewrite elem_of_completed_entries.
    split; intros (x & Hx & Hc); exists x.
    - apply elem_of_map_to_list in Hx. by apply is_completed_spec in Hc.
    - destruct Hc as [Hk Hc]. split; [by apply elem_of_map_to_list|].
      by apply is_completed_spec. }
  split; [done|]. intros b Hb. apply H. by exists (VBool b).
Qed.

(** [targeting] set to [false] counts as completed. *)
Lemma completedFields_spec_witness :
  "targeting"%js ∈ completedFields {[ "targeting"%js := VBool false ]}.
Proof.
  apply (completedFields_spec {[ "targeting"%js := VBool false ]} "targeting")
    with (b := false).
  reflexivity.
Defined.

Section SchemaFacts.
Variable isUrl : jsstring -> bool.

Lemma parse_issue_path (t : ZodType) (p : list jsstring) (x : value) (i : Issue) :
  i ∈ (parse isUrl t p x).2 -> path i = p.
Proof.
  revert x. induction t as [checks| |re|t IH|t IH]; intros x; cbn.
  - destruct x; cbn; rewrite ?list_elem_of_singleton; try by intros ->.
    rewrite list_elem_of_In, in_flat_map.
    intros (c & _ & Hi). apply list_elem_of_In in Hi.
    destruct c; cbn in Hi; case_match;
      rewrite ?list_elem_of_singleton, ?elem_of_nil in Hi; by subst.
  - destruct x; cbn; rewrite ?list_elem_of_singleton, ?elem_of_nil;
      try done; by intros ->.
  - destruct x; cbn; rewrite ?list_elem_of_singleton, ?elem_of_nil;
      try done; by intros ->.
  - destruct x; cbn; rewrite ?elem_of_nil; try done; apply IH.
  - destruct x; cbn; rewrite ?elem_of_nil; try done; apply IH.
Qed.

Lemma parse_aborted_iff (t : ZodType) (p : list jsstring) (x : value) :
  (parse isUrl t p x).1 <> aborted <-> has_type t x.
Proof.
  revert x. induction t as [checks| |re|t IH|t IH]; intros x; cbn.
  - destruct x; cbn; split; try done; try (by intros [? ?]); eauto.
    intros _. by case_match.
  - destruct x; cbn; split; try done; try (by intros [? ?]); eauto.
  - destruct x; cbn; split; try done; try (by intros [? ?]); eauto.
  - destruct x; cbn; rewrite ?IH; split; try tauto; try (by left);
      by intros [?|?].
  - destruct x; cbn; rewrite ?IH; split; try tauto; try (by left);
      by intros [?|?].
Qed.

Lemma parse_valid_iff (t : ZodType) (p : list jsstring) (x : value) :
  (parse isUrl t p x).1 = valid <-> (parse isUrl t p x).2 = [].
Proof.
  revert x. induction t as [checks| |re|t IH|t IH]; intros x; cbn.
  - destruct x; cbn; try done. by case_match.
  - by destruct x.
  - by destruct x.
  - destruct x; cbn; try done; apply IH.
  - destruct x; cbn; try done; apply IH.
Qed.

Lemma merge_status_aborted (a b : ParseStatus) :
  merge_status a b = aborted <-> a = aborted \/ b = aborted.
Proof. destruct a, b; cbn; intuition congruence. Qed.

Lemma merge_status_valid (a b : ParseStatus) :
  merge_status a b = valid <-> a = valid /\ b = valid.
Proof. destruct a, b; cbn; intuition congruence. Qed.

Lemma parse_object_issue (shape : ObjectShape) (data : object) (i : Issue) :
  i ∈ (parse_object isUrl shape data).2 <->
  exists k t, (k, t) ∈ shape /\ i ∈ (parse isUrl t [k] (field data k)).2.
Proof.
  induction shape as [|[k t] shape IH]; cbn.
  - split; [by intros ?%elem_of_nil|]. by intros (? & ? & ?%elem_of_nil & _).
  - rewrite elem_of_app, IH. split.
    + intros [H|(k' & t' & H & Hi)].
      * exists k, t. split; [left|done].
      * exists k', t'. split; [by right|done].
    + intros (k' & t' & H & Hi). apply elem_of_cons in H as [H|H].
      * left. by injection H as -> ->.
      * right. eauto.
Qed.

Lemma parse_object_well_typed (shape : ObjectShape) (data : object) :
  (parse_object isUrl shape data).1 <> aborted <-> well_typed shape data.
Proof.
  unfold well_typed. induction shape as [|[k t] shape IH]; cbn.
  - split; [constructor|done].
  - rewrite Forall_cons, <- IH, <- (parse_aborted_iff t [k]). cbn.
    rewrite merge_status_aborted. tauto.
Qed.

Lemma parse_object_valid_iff (shape : ObjectShape) (data : object) :
  (parse_object isUrl shape data).1 = valid <->
  (parse_object isUrl shape data).2 = [].
Proof.
  induction shape as [|[k t] shape IH]; cbn; [done|].
  rewrite merge_status_valid, IH, parse_valid_iff.
  split; [by intros [-> ->]|]. by intros [? ?]%app_eq_nil.
Qed.

(** The fields the schema declares as optional strings. *)
Lemma optional_string_fields (k : jsstring) (t : ZodType) :
  k ∈ ["subLedger"; "partnerName"; "thirdPartyName"]%js ->
  (k, t) ∈ campaignFormShape -> t = z_optional (z_string []).
Proof.
  intros Hk H. unfold campaignFormShape in H.
  repeat (apply elem_of_cons in H as [H|H];
          [injection H as -> ->; try done;
           exfalso; revert Hk; apply (bool_decide_eq_false _);
           by vm_compute |]).
  by apply elem_of_nil in H.
Qed.

(** No issue of the object schema lands on an optional string field that
    holds a string or is unset. *)
Lemma optional_string_no_issue (k : jsstring) (data : object) (i : Issue) :
  k ∈ ["subLedger"; "partnerName"; "thirdPartyName"]%js ->
  has_type (z_optional (z_string [])) (field data k) ->
  i ∈ (parse_object isUrl campaignFormShape data).2 ->
  forall rest, path i <> k :: rest.
Proof.
  intros Hk Ht Hi rest Hp.
  apply parse_object_issue in Hi as (k' & t & Hin & Hi).
  pose proof (parse_issue_path _ _ _ _ Hi) as Hp'.
  rewrite Hp in Hp'. injection Hp' as -> ->.
  rewrite (optional_string_fields _ _ Hk Hin) in Hi.
  destruct Ht as [Hu|[s Hs]].
  - rewrite Hu in Hi. by apply elem_of_nil in Hi.
  - rewrite Hs in Hi. by apply elem_of_nil in Hi.
Qed.

Lemma fieldErrors_last (issues : list Issue) (i : Issue) (k : jsstring) :
  path i = [k] ->
  (forall j, j ∈ issues -> forall rest, path j <> k :: rest) ->
  fieldErrors (issues ++ [i]) !! k = Some (message i).
Proof.
  intros Hp. induction issues as [|j issues IH]; intros Hno; cbn.
  - rewrite Hp. by rewrite lookup_insert_eq.
  - destruct (path j) as [|k' rest] eqn:Hj.
    + apply IH. intros j' Hj'. apply Hno. by right.
    + rewrite lookup_insert_ne.
      * apply IH. intros j' Hj'. apply Hno. by right.
      * intros ->. by apply (Hno j (ltac:(left)) rest).
Qed.

Lemma filled_after_trim_true (s : jsstring) :
  trim s <> ""%js -> filled_after_trim (VString s) = true.
Proof.
  intros H. cbn. rewrite bool_decide_false by done.
  apply trim_nonempty, str_falsy_false in H. by rewrite H.
Qed.

Lemma filled_after_trim_blank (x : value) :
  blank x -> filled_after_trim x = false.
Proof.
  intros [->|(s & -> & Hs)]; [done|]. cbn.
  rewrite bool_decide_true by done. apply andb_false_r.
Qed.

Lemma blank_optional_string (x : value) :
  blank x -> has_type (z_optional (z_string [])) x.
Proof. intros [->|(s & -> & _)]; [by left|right; by exists s]. Qed.


Lemma refine_failed_check (shape : ObjectShape) (check : object -> bool)
    (msg : jsstring) (p : list jsstring) (data : object) :
  well_typed shape data ->
  check data = false ->
  (refine isUrl shape check msg p data).2
  = (parse_object isUrl shape data).2 ++ [refinement_issue msg p].
Proof.
  intros Hwt Hc. apply parse_object_well_typed in Hwt.
  unfold refine. rewrite Hc.
  destruct (parse_object isUrl shape data) as [st issues]. cbn [fst snd] in *.
  by destruct st.
Qed.

Lemma refine_rejects (shape : ObjectShape) (check : object -> bool)
    (msg : jsstring) (p : list jsstring) (data : object) :
  check data = false -> (refine isUrl shape check msg p data).2 <> [].
Proof.
  intros Hc. unfold refine. rewrite Hc.
  pose proof (parse_object_valid_iff shape data) as Hvalid.
  destruct (parse_object isUrl shape data) as [st issues]. cbn [fst snd] in *.
  destruct st; cbn [snd]; try (by destruct issues).
  intros ->. by assert (aborted = valid) by (by apply Hvalid).
Qed.

(** C7 (as amended) — For every draft whose cost center is non-empty after
    trimming and whose sub-ledger is unset, empty or white space, validation
    fails; when moreover every field holds a value of its declared type (in
    particular the start date is set), the violation of the sub-ledger rule
    is among the issues and is the error attached to the sub-ledger field. *)
Theorem subLedger_rule_enforced (data : object) (cc : jsstring) :
  field data "costCenter" = VString cc ->
  trim cc <> ""%js ->
  blank (field data "subLedger") ->
  validate isUrl data <> []
  /\ (well_typed campaignFormShape data ->
      refinement_issue subLedgerMessage ["subLedger"%js] ∈ validate isUrl data
      /\ fieldErrors (validate isUrl data) !! ("subLedger"%js)
         = Some subLedgerMessage).
Proof.
  intros Hcc Htrim Hsl.
  assert (subLedgerRule data = false) as Hrule.
  { unfold subLedgerRule. rewrite Hcc, filled_after_trim_true by done.
    by apply filled_after_trim_blank. }
  unfold validate, campaignFormSchema. split.
  - by apply refine_rejects.
  - intros Hwt. rewrite refine_failed_check by done. split.
    + apply elem_of_app. right. left.
    + apply fieldErrors_last; [done|]. intros j Hj.
      eapply optional_string_no_issue; [left| |done].
      by apply blank_optional_string.
Qed.




End SchemaFacts.

Lemma complete_draft_valid : validate is_example_url complete_draft = [].
Proof. by vm_compute. Qed.

(** C7 (as stated) fails: a cost center made of one space is non-empty, yet
    the draft passes validation with an empty sub-ledger. *)
Lemma subLedger_rule_counterexample :
  ¬ (forall (isUrl : jsstring -> bool) (data : object) (cc sl : jsstring),
       field data "costCenter" = VString cc -> cc <> ""%js ->
       field data "subLedger" = VString sl -> trim sl = ""%js ->
       validate isUrl data <> []
       /\ exists i, i ∈ validate isUrl data /\ path i = ["subLedger"%js]).
Proof.
  intros H.
  assert (validate is_example_url
            (<["costCenter"%js := VString " "]>
               (<["subLedger"%js := VString ""]> complete_draft)) = [])
    as Hpass by (by vm_compute).
  eapply (H is_example_url _ " "%js ""%js); [..|exact Hpass].
  - by vm_compute.
  - discriminate.
  - by vm_compute.
  - reflexivity.
Qed.

(** When the start date is missing the refinement is not run: the issues
    then carry nothing for the sub-ledger. *)
Lemma subLedger_rule_skipped_without_startDate :
  validate is_example_url
    (<["costCenter"%js := VString "Engineering"]>
       (<["subLedger"%js := VString ""]> (delete "startDate"%js complete_draft)))
  = [ {| code := invalid_type; path := ["startDate"%js];
         message := "Start date is required" |} ].
Proof. by vm_compute. Qed.

(** The complete draft with cost center "Engineering" and an empty
    sub-ledger. *)
Lemma subLedger_rule_enforced_witness :
  fieldErrors
    (validate is_example_url
       (<["costCenter"%js := VString "Engineering"]>
          (<["subLedger"%js := VString ""]> complete_draft)))
    !! ("subLedger"%js)
  = Some subLedgerMessage.
Proof.
  apply (subLedger_rule_enforced is_example_url
           (<["costCenter"%js := VString "Engineering"]>
              (<["subLedger"%js := VString ""]> complete_draft))
           "Engineering").
  - reflexivity.
  - by vm_compute.
  - right. exists ""%js. split; reflexivity.
  - apply (bool_decide_unpack _). by vm_compute.
Defined.


Lemma partnering_without_name_accepted :
  validate is_example_url
    (<["partnering"%js := VBool true]>
       (<["partnerName"%js := VString ""]> complete_draft)) = []
  /\ validate is_example_url
       (<["thirdParty"%js := VBool true]>
          (<["thirdPartyName"%js := VString ""]> complete_draft)) = [].
Proof. by vm_compute. Qed.


(** ** Reference data *)

Lemma select_by_name_app (n : jsstring) (rows : list ReferenceEntity)
    (row : ReferenceEntity) :
  name row = n -> select_by_name n (rows ++ [row]) <> [].
Proof.
  intros Hn. unfold select_by_name. rewrite filter_app.
  rewrite filter_cons_True by done. by destruct (filter _ rows).
Qed.

Lemma table_log_call (k : Kind) (c : StorageCall) (db : Db) :
  table k (log_call c db) = table k db.
Proof. by destruct k. Qed.

Lemma parse_insert_name (req_body : object) (n : jsstring) (d : option jsstring) :
  parse_insert req_body = inl (n, d) -> field req_body "name" = VString n.
Proof.
  unfold parse_insert.
  destruct (parse_object _ _ _).2; [|by destruct (field req_body "name")].
  destruct (field req_body "name"); try done. by intros [= -> _].
Qed.

(** The outcome of a create request that is answered with 201. *)
Lemma post_create_created (k : Kind) (req_body : object) (db db1 : Db)
    (r : Response) :
  post_create k req_body db = (r, db1) ->
  status r = 201 ->
  exists n d row,
    parse_insert req_body = inl (n, d)
    /\ select_by_name n (table k db) = []
    /\ name row = n
    /\ body r = body_entity row
    /\ table k db1 = table k db ++ [row].
Proof.
  unfold post_create, checkExists, createEntity.
  destruct (parse_insert req_body) as [[n d]|issues]; [|by intros [= <- _]].
  rewrite !table_log_call.
  destruct (select_by_name n (table k db)) eqn:Hsel; [|by intros [= <- _]].
  intros [= <- <-] _. exists n, d. eexists. repeat split.
  all: try by destruct k.

Qed.

(** C2 — For every name, once a create request for it has been answered
    with 201, the existence check on that name returns true, and a second
    create request for it is answered with 409 and leaves both tables as
    they are. *)
Theorem create_then_exists_then_conflict (k : Kind) (req_body : object)
    (n : jsstring) (db db1 : Db) (r : Response) :
  field req_body "name" = VString n ->
  post_create k req_body db = (r, db1) ->
  status r = 201 ->
  (checkExists k n db1).1 = true
  /\ exists r2 db2,
       post_create k req_body db1 = (r2, db2)
       /\ status r2 = 409
       /\ partners db2 = partners db1
       /\ thirdParties db2 = thirdParties db1.
Proof.
  intros Hname Hpost Hst.
  destruct (post_create_created _ _ _ _ _ Hpost Hst)
    as (n' & d & row & Hparse & _ & Hrow & _ & Htable).
  pose proof (parse_insert_name _ _ _ Hparse) as Hn.
  rewrite Hname in Hn. injection Hn as <-.
  pose proof (select_by_name_app n (table k db) row Hrow) as Hfound.
  rewrite <- Htable in Hfound.
  split.
  - unfold checkExists. cbn [fst].
    by destruct (select_by_name n (table k db1)).
  - unfold post_create, checkExists. rewrite Hparse.
    destruct (select_by_name n (table k db1)); [done|].
    by do 2 eexists.
Qed.

(** Creating the partner "Acme" in an empty store. *)
Lemma create_then_exists_then_conflict_witness :
  (checkExists partner "Acme"
     (post_create partner {[ "name"%js := VString "Acme" ]} empty_db).2).1
  = true.
Proof.
  apply (create_then_exists_then_conflict partner
           {[ "name"%js := VString "Acme" ]} "Acme" empty_db _
           (post_create partner {[ "name"%js := VString "Acme" ]} empty_db).1).
  - reflexivity.
  - by vm_compute.
  - by vm_compute.
Defined.

(** C1 — For every name that is empty after trimming, adding a partner or
    a third party is refused in the dialog with the name-required error: no
    request is sent, and the record store (its tables and the calls made to
    it) is unchanged. *)
Theorem handleAdd_blank_name (k : Kind) (newName : jsstring) (w : World) :
  trim newName = ""%js ->
  (handleAdd k newName w).1 = NameRequired
  /\ network (handleAdd k newName w).2 = network w
  /\ store (handleAdd k newName w).2 = store w
  /\ toasts (handleAdd k newName w).2
     = toasts w ++ [toast_error (name_required_message k)].
Proof.
  intros Hblank. unfold handleAdd. by rewrite Hblank.
Qed.

(** Three spaces as a partner name. *)
Lemma handleAdd_blank_name_witness :
  (handleAddPartner "   "
     {| network := []; toasts := []; store := empty_db |}).1 = NameRequired.
Proof.
  apply (handleAdd_blank_name partner "   "
           {| network := []; toasts := []; store := empty_db |}).
  by vm_compute.
Defined.

(** The route alone does not look at white space: a blank name that reaches
    it is stored. *)
Lemma post_create_blank_name_stored :
  status (post_create partner {[ "name"%js := VString "   " ]} empty_db).1 = 201
  /\ name <$> partners
       (post_create partner {[ "name"%js := VString "   " ]} empty_db).2
     = ["   "%js].
Proof. by vm_compute. Qed.


(* ===================================================================== *)
(** * Further properties of the code                                      *)
(* ===================================================================== *)

(** ** The order of [sort] *)

Lemma units_ltb_asym (a b : list N) :
  units_ltb a b = true -> units_ltb b a = false.
Proof.
  revert b. induction a as [|x a IH]; intros [|y b]; cbn; try done.
  destruct (N.ltb_spec x y), (N.ltb_spec y x); try done; try lia.
  apply IH.
Qed.

Lemma Sorted_sort_insert (x : jsstring) (l : list jsstring) :
  Sorted js_le l -> Sorted js_le (sort_insert x l).
Proof.
  induction 1 as [|y l Hs IH Hhd]; cbn.
  - by repeat constructor.
  - destruct (js_ltb x y) eqn:Hxy.
    + constructor; [by constructor|]. constructor.
      by apply units_ltb_asym.
    + constructor; [done|].
      destruct Hhd as [|z l Hyz]; cbn.
      * by constructor.
      * destruct (js_ltb x z); by constructor.
Qed.

Lemma Sorted_sort (xs : list jsstring) : Sorted js_le (sort xs).
Proof.
  induction xs as [|x xs IH]; cbn; [constructor|].
  by apply Sorted_sort_insert.
Qed.

Lemma sort_insert_Permutation (x : jsstring) (l : list jsstring) :
  sort_insert x l ≡ₚ x :: l.
Proof.
  induction l as [|y l IH]; cbn; [done|].
  destruct (js_ltb x y); [done|]. rewrite IH. apply Permutation_swap.
Qed.

Lemma sort_Permutation (xs : list jsstring) : sort xs ≡ₚ xs.
Proof.
  induction xs as [|x xs IH]; cbn; [done|].
  by rewrite sort_insert_Permutation, IH.
Qed.

(** ** Keys of the tables *)

Lemma empty_not_campaignType : campaignHierarchy !! (""%js) = None.
Proof. by vm_compute. Qed.

Lemma empty_not_costCenter : costCenterSubLedgers !! (""%js) = None.
Proof. by vm_compute. Qed.

Lemma inherited_not_empty (k : jsstring) : k ∈ objectPrototypeKeys -> k <> ""%js.
Proof.
  intros Hk ->. revert Hk. apply (bool_decide_eq_false _). by vm_compute.
Qed.

Lemma inherited_not_campaignType (k : jsstring) :
  k ∈ objectPrototypeKeys -> campaignHierarchy !! k = None.
Proof.
  intros Hk. unfold objectPrototypeKeys in Hk.
  repeat (apply elem_of_cons in Hk as [->|Hk]; [by vm_compute|]).
  by apply elem_of_nil in Hk.
Qed.

Lemma inherited_not_costCenter (k : jsstring) :
  k ∈ objectPrototypeKeys -> costCenterSubLedgers !! k = None.
Proof.
  intros Hk. unfold objectPrototypeKeys in Hk.
  repeat (apply elem_of_cons in Hk as [->|Hk]; [by vm_compute|]).
  by apply elem_of_nil in Hk.
Qed.

Lemma filteredSubLedgers_own (costCenter : jsstring) subLedgers :
  costCenterSubLedgers !! costCenter = Some subLedgers ->
  filteredSubLedgers costCenter = Return (sort subLedgers).
Proof.
  intros H. unfold filteredSubLedgers, has_property.
  rewrite (get_property_own _ _ _ H).
  destruct (decide (costCenter = ""%js)) as [->|Hne].
  - by rewrite empty_not_costCenter in H.
  - by apply str_falsy_false in Hne as ->.
Qed.

(** X1 — For every campaign type that is a key of the hierarchy table the
    sources offered are exactly its sources, in ascending order of code
    units; likewise the sub-ledgers offered for every cost center that is a
    key of its table. *)
Theorem known_keys_sorted_options (k : jsstring) :
  (forall typeData, campaignHierarchy !! k = Some typeData ->
     exists l, filteredCampaignSources k = Return l
               /\ l ≡ₚ sources typeData /\ Sorted js_le l)
  /\ (forall subLedgers, costCenterSubLedgers !! k = Some subLedgers ->
        exists l, filteredSubLedgers k = Return l
                  /\ l ≡ₚ subLedgers /\ Sorted js_le l).
Proof.
  split.
  - intros td H. exists (sort (sources td)).
    split; [|split; [apply sort_Permutation|apply Sorted_sort]].
    apply filteredCampaignSources_own; [done|].
    intros ->. by rewrite empty_not_campaignType in H.
  - intros sl H. exists (sort sl).
    split; [|split; [apply sort_Permutation|apply Sorted_sort]].
    by apply filteredSubLedgers_own.
Qed.

Lemma known_keys_sorted_options_witness :
  exists l, filteredSubLedgers "Sales" = Return l
            /\ l ≡ₚ ["Sales Activities"; "Sales Support"; "Sales Training"]%js
            /\ Sorted js_le l.
Proof.
  apply (known_keys_sorted_options "Sales"). by vm_compute.
Defined.

Lemma filteredCampaignSources_inherited (k : jsstring) :
  k ∈ objectPrototypeKeys -> filteredCampaignSources k = TypeError.
Proof.
  intros Hk. unfold filteredCampaignSources, has_property.
  rewrite (get_property_inherited _ _ (inherited_not_campaignType _ Hk) Hk).
  by apply inherited_not_empty, str_falsy_false in Hk as ->.
Qed.

Lemma filteredSubLedgers_inherited (k : jsstring) :
  k ∈ objectPrototypeKeys -> filteredSubLedgers k = TypeError.
Proof.
  intros Hk. unfold filteredSubLedgers, has_property.
  rewrite (get_property_inherited _ _ (inherited_not_costCenter _ Hk) Hk).
  by apply inherited_not_empty, str_falsy_false in Hk as ->.
Qed.

Lemma filteredAdTypes_inherited (campaignType source : jsstring) :
  campaignType ∈ objectPrototypeKeys -> source <> ""%js ->
  filteredAdTypes campaignType source = TypeError.
Proof.
  intros Hk Hc. unfold filteredAdTypes, has_property.
  rewrite (get_property_inherited _ _ (inherited_not_campaignType _ Hk) Hk).
  apply inherited_not_empty, str_falsy_false in Hk as ->.
  by apply str_falsy_false in Hc as ->.
Qed.

Lemma filteredAdTypeDetails_inherited (campaignType adType : jsstring) :
  campaignType ∈ objectPrototypeKeys -> adType <> ""%js ->
  filteredAdTypeDetails campaignType adType = TypeError.
Proof.
  intros Hk Hc. unfold filteredAdTypeDetails, has_property.
  rewrite (get_property_inherited _ _ (inherited_not_campaignType _ Hk) Hk).
  apply inherited_not_empty, str_falsy_false in Hk as ->.
  by apply str_falsy_false in Hc as ->.
Qed.

(** X2 — Resolving the sources of a campaign type, or the sub-ledgers of a
    cost center, throws exactly when the key is the name of a property that
    object literals inherit; for every other string a list is returned. *)
Theorem one_level_resolvers_throw_iff_inherited (k : jsstring) :
  (filteredCampaignSources k = TypeError <-> k ∈ objectPrototypeKeys)
  /\ (filteredSubLedgers k = TypeError <-> k ∈ objectPrototypeKeys).
Proof.
  split; split.
  - intros H. destruct (decide (k ∈ objectPrototypeKeys)) as [|Hk]; [done|].
    destruct (campaignHierarchy !! k) as [td|] eqn:Hl.
    + destruct (decide (k = ""%js)) as [->|Hne].
      * by rewrite empty_not_campaignType in Hl.
      * by rewrite (filteredCampaignSources_own _ _ Hl Hne) in H.
    + by rewrite (filteredCampaignSources_unknown _ Hl Hk) in H.
  - apply filteredCampaignSources_inherited.
  - intros H. destruct (decide (k ∈ objectPrototypeKeys)) as [|Hk]; [done|].
    destruct (costCenterSubLedgers !! k) as [sl|] eqn:Hl.
    + by rewrite (filteredSubLedgers_own _ _ Hl) in H.
    + unfold filteredSubLedgers, has_property in H.
      rewrite (get_property_missing _ _ Hl Hk) in H.
      by rewrite orb_true_r in H.
  - apply filteredSubLedgers_inherited.
Qed.

Lemma filteredAdTypeDetails_own (campaignType adType : jsstring) typeData :
  campaignHierarchy !! campaignType = Some typeData ->
  adType <> ""%js ->
  filteredAdTypeDetails campaignType adType =
    match get_property (adTypeDetails typeData) adType with
    | Own l => Return (sort l)
    | Inherited => TypeError
    | Missing => Return []
    end.
Proof.
  intros H Ha. unfold filteredAdTypeDetails, has_property.
  rewrite (get_property_own _ _ _ H).
  assert (campaignType <> ""%js) as Ht.
  { intros ->. by rewrite empty_not_campaignType in H. }
  apply str_falsy_false in Ht as ->. apply str_falsy_false in Ha as ->.
  by destruct (get_property (adTypeDetails typeData) adType).
Qed.

Lemma filteredAdTypeDetails_unknown (campaignType adType : jsstring) :
  campaignHierarchy !! campaignType = None ->
  campaignType ∉ objectPrototypeKeys ->
  filteredAdTypeDetails campaignType adType = Return [].
Proof.
  intros Hnone Hk. unfold filteredAdTypeDetails, has_property.
  rewrite (get_property_missing _ _ Hnone Hk).
  by rewrite orb_true_r.
Qed.

(** Case analysis on the entries of the hierarchy table. *)
Ltac each_campaignType H :=
  apply elem_of_list_to_map_2 in H;
  unfold campaignHierarchy_entries in H;
  repeat (apply elem_of_cons in H as [H|H]; [injection H as -> ->|]);
  [..|by apply elem_of_nil in H].

(** No key of the inner tables is the name of an inherited built-in. *)
Lemma inner_keys_not_inherited (campaignType k : jsstring) typeData :
  campaignHierarchy !! campaignType = Some typeData ->
  k ∈ objectPrototypeKeys ->
  adTypes typeData !! k = None /\ adTypeDetails typeData !! k = None.
Proof.
  intros H. revert k. apply Forall_forall.
  each_campaignType H; apply (bool_decide_unpack _); by vm_compute.
Qed.

(** X3 — Resolving ad types (ad-type details) throws exactly in two cases:
    the campaign type is an inherited property name and the source (ad type)
    is non-empty, or the campaign type is a key of the table and the source
    (ad type) is an inherited property name. *)
Theorem two_level_resolvers_throw_iff_inherited (campaignType child : jsstring) :
  (filteredAdTypes campaignType child = TypeError <->
   (campaignType ∈ objectPrototypeKeys /\ child <> ""%js)
   \/ (is_Some (campaignHierarchy !! campaignType)
       /\ child ∈ objectPrototypeKeys))
  /\ (filteredAdTypeDetails campaignType child = TypeError <->
      (campaignType ∈ objectPrototypeKeys /\ child <> ""%js)
      \/ (is_Some (campaignHierarchy !! campaignType)
          /\ child ∈ objectPrototypeKeys)).
Proof.
  split; split.
  - intros H.
    destruct (decide (child = ""%js)) as [->|Hc].
    { unfold filteredAdTypes in H. by destruct (str_falsy campaignType). }
    destruct (campaignHierarchy !! campaignType) as [td|] eqn:Hl.
    + right. split; [by eexists|].
      assert (campaignType <> ""%js) as Ht.
      { intros ->. by rewrite empty_not_campaignType in Hl. }
      rewrite (filteredAdTypes_own _ _ _ Hl Ht Hc) in H.
      unfold get_property in H.
      destruct (adTypes td !! child); [done|]. by case_bool_decide.
    + left. split; [|done].
      destruct (decide (campaignType ∈ objectPrototypeKeys)) as [|Hk]; [done|].
      by rewrite (filteredAdTypes_unknown _ _ Hl Hk) in H.
  - intros [[Hk Hc]|[[td Hl] Hk]].
    + by apply filteredAdTypes_inherited.
    + assert (campaignType <> ""%js) as Ht.
      { intros ->. by rewrite empty_not_campaignType in Hl. }
      rewrite (filteredAdTypes_own _ _ _ Hl Ht (inherited_not_empty _ Hk)).
      destruct (inner_keys_not_inherited _ _ _ Hl Hk) as [Hn _].
      by rewrite (get_property_inherited _ _ Hn Hk).
  - intros H.
    destruct (decide (child = ""%js)) as [->|Hc].
    { unfold filteredAdTypeDetails in H. by destruct (str_falsy campaignType). }
    destruct (campaignHierarchy !! campaignType) as [td|] eqn:Hl.
    + right. split; [by eexists|].
      rewrite (filteredAdTypeDetails_own _ _ _ Hl Hc) in H.
      unfold get_property in H.
      destruct (adTypeDetails td !! child); [done|]. by case_bool_decide.
    + left. split; [|done].
      destruct (decide (campaignType ∈ objectPrototypeKeys)) as [|Hk]; [done|].
      by rewrite (filteredAdTypeDetails_unknown _ _ Hl Hk) in H.
  - intros [[Hk Hc]|[[td Hl] Hk]].
    + by apply filteredAdTypeDetails_inherited.
    + rewrite (filteredAdTypeDetails_own _ _ _ Hl (inherited_not_empty _ Hk)).
      destruct (inner_keys_not_inherited _ _ _ Hl Hk) as [_ Hn].
      by rewrite (get_property_inherited _ _ Hn Hk).
Qed.

(** What it takes for a select to offer a value. *)
Lemma offered_source_inv (campaignType source : jsstring) :
  offered source (filteredCampaignSources campaignType) ->
  exists typeData, campaignHierarchy !! campaignType = Some typeData
                   /\ source ∈ sources typeData.
Proof.
  intros H.
  destruct (campaignHierarchy !! campaignType) as [td|] eqn:Hl.
  - exists td. split; [done|].
    assert (campaignType <> ""%js) as Ht.
    { intros ->. by rewrite empty_not_campaignType in Hl. }
    rewrite (filteredCampaignSources_own _ _ Hl Ht) in H.
    unfold offered in H. by rewrite elem_of_sort in H.
  - exfalso. destruct (decide (campaignType ∈ objectPrototypeKeys)) as [Hk|Hk].
    + by rewrite (filteredCampaignSources_inherited _ Hk) in H.
    + rewrite (filteredCampaignSources_unknown _ Hl Hk) in H.
      by apply elem_of_nil in H.
Qed.

Lemma offered_adType_inv (campaignType source adType : jsstring) :
  offered adType (filteredAdTypes campaignType source) ->
  exists typeData l, campaignHierarchy !! campaignType = Some typeData
                     /\ adTypes typeData !! source = Some l /\ adType ∈ l.
Proof.
  intros H.
  destruct (decide (source = ""%js)) as [->|Hs].
  { unfold filteredAdTypes in H. destruct (str_falsy campaignType);
      by apply elem_of_nil in H. }
  destruct (campaignHierarchy !! campaignType) as [td|] eqn:Hl.
  - assert (campaignType <> ""%js) as Ht.
    { intros ->. by rewrite empty_not_campaignType in Hl. }
    rewrite (filteredAdTypes_own _ _ _ Hl Ht Hs) in H. unfold get_property in H.
    destruct (adTypes td !! source) as [l|] eqn:Ha.
    + exists td, l. split; [done|]. split; [done|].
      unfold offered in H. by rewrite elem_of_sort in H.
    + exfalso. case_bool_decide; [done|]. by apply elem_of_nil in H.
  - exfalso. destruct (decide (campaignType ∈ objectPrototypeKeys)) as [Hk|Hk].
    + by rewrite (filteredAdTypes_inherited _ _ Hk Hs) in H.
    + rewrite (filteredAdTypes_unknown _ _ Hl Hk) in H.
      by apply elem_of_nil in H.
Qed.

Ltac each_element H :=
  repeat (apply elem_of_cons in H as [->|H]);
  [..|by apply elem_of_nil in H].

Ltac each_key H :=
  repeat (rewrite lookup_insert in H;
          match type of H with
          | context [decide (?a = ?b)] =>
              destruct (decide (a = b)) as [<-|_]; [injection H as <-|]
          end);
  [..|by rewrite lookup_empty in H].

Ltac nonempty_by_evaluation :=
  eexists; split; [vm_compute; reflexivity|discriminate].

(** X4 — No select of the campaign chain runs dry: every campaign type on
    offer has sources, every source on offer has ad types, every ad type on
    offer has details, and every cost center on offer has sub-ledgers. *)
Theorem selects_have_no_dead_end :
  (forall campaignType, campaignType ∈ campaignTypes ->
     exists l, filteredCampaignSources campaignType = Return l /\ l <> [])
  /\ (forall campaignType source,
        offered source (filteredCampaignSources campaignType) ->
        exists l, filteredAdTypes campaignType source = Return l /\ l <> [])
  /\ (forall campaignType source adType,
        offered adType (filteredAdTypes campaignType source) ->
        exists l, filteredAdTypeDetails campaignType adType = Return l
                  /\ l <> [])
  /\ (forall costCenter, costCenter ∈ costCenters ->
        exists l, filteredSubLedgers costCenter = Return l /\ l <> []).
Proof.
  repeat split.
  - intros ct H. unfold campaignTypes in H. rewrite elem_of_sort in H.
    cbn in H.
    each_element H; nonempty_by_evaluation.
  - intros ct cs H. apply offered_source_inv in H as (td & Hl & Hs).
    each_campaignType Hl; cbn in Hs; each_element Hs; nonempty_by_evaluation.
  - intros ct cs at_ H.
    apply offered_adType_inv in H as (td & l & Hl & Ha & Hin).
    each_campaignType Hl; cbn [adTypes] in Ha; each_key Ha;
      each_element Hin; nonempty_by_evaluation.
  - intros cc H. unfold costCenters in H. rewrite elem_of_sort in H.
    cbn in H.
    each_element H; nonempty_by_evaluation.
Qed.

Lemma selects_have_no_dead_end_witness :
  exists l, filteredAdTypeDetails "Social Media" "Story" = Return l /\ l <> [].
Proof.
  apply (proj1 (proj2 (proj2 selects_have_no_dead_end))
           "Social Media"%js "Facebook"%js "Story"%js).
  apply (bool_decide_unpack _). by vm_compute.
Defined.


Lemma settle_at_rest (fuel : nat) (st st' : FormState) :
  settle fuel st = Some st' -> at_rest st' = true.
Proof.
  revert st. induction fuel as [|fuel IH]; intros st; cbn [settle];
    destruct (at_rest st) eqn:Hrest; try done.
  - by intros [= <-].
  - by intros [= <-].
  - apply IH.
Qed.

(** X12 — From every state the effects stop re-rendering within three
    renders, and the state reached is at rest. *)
Theorem rendering_comes_to_rest (st : FormState) :
  exists st', settle render_budget st = Some st' /\ at_rest st' = true.
Proof.
  destruct (settle_total st) as [st' Hs]. exists st'. split; [done|].
  by apply settle_at_rest in Hs.
Qed.

(** X10 — Committing to a field the value it already holds leaves the whole
    state as it is: no reset fires. *)
Theorem reselecting_changes_nothing (f : Field) (v : FormValues) :
  commit f (getValue f v) (synced v) = Some (synced v).
Proof.
  rewrite commit_synced. do 2 f_equal.
  destruct v as [ct cs at_ ad cc sl].
  destruct f; cbn; by rewrite ?decide_True.
Qed.

(** X11 — A committed change in the campaign chain never touches the cost
    center or the sub-ledger, and a committed change of the cost center or
    the sub-ledger never touches the campaign chain. *)
Theorem chains_are_independent (f : Field) (x : jsstring) (v : FormValues) :
  exists st, commit f x (synced v) = Some st
    /\ (in_campaign_chain f = true ->
        costCenter (values st) = costCenter v
        /\ subLedger (values st) = subLedger v)
    /\ (in_campaign_chain f = false ->
        campaignType (values st) = campaignType v
        /\ campaignSource (values st) = campaignSource v
        /\ adType (values st) = adType v
        /\ adTypeDetail (values st) = adTypeDetail v).
Proof.
  eexists. split; [apply commit_synced|].
  destruct v as [ct cs at_ ad cc sl].
  destruct f; cbn; split; try done; intros _; by repeat case_decide.
Qed.

Lemma chains_are_independent_witness :
  exists st,
    commit F_costCenter "Sales"
      (synced {| campaignType := "Google Ads"; campaignSource := "Google";
                 adType := "Text"; adTypeDetail := "Standard Banner";
                 costCenter := "Marketing";
                 subLedger := "Marketing Events" |}) = Some st
    /\ campaignSource (values st) = "Google"%js
    /\ subLedger (values st) = ""%js.
Proof.
  destruct (chains_are_independent F_costCenter "Sales"
              {| campaignType := "Google Ads"; campaignSource := "Google";
                 adType := "Text"; adTypeDetail := "Standard Banner";
                 costCenter := "Marketing";
                 subLedger := "Marketing Events" |}) as (st & Hc & _ & Hk).
  exists st. split; [done|]. split; [by apply Hk|].
  rewrite commit_synced in Hc. injection Hc as <-. by vm_compute.
Defined.

(** X13 — On the create-campaign page, which passes no draft, every state
    reachable by picking offered options has each child field empty or valid
    for its parent. *)
Theorem create_page_respects_hierarchy (st : FormState) :
  reachable no_initialData st -> hierarchy_respected (values st).
Proof.
  intros Hr. induction Hr as [st Hm|st f x st' Hr IH Hx Hc].
  - rewrite mount_synced in Hm. injection Hm as <-.
    repeat split; by left.
  - rewrite (reachable_synced _ _ Hr), commit_synced in Hc.
    injection Hc as <-. by apply cascade_respected.
Qed.

Lemma create_page_respects_hierarchy_witness :
  hierarchy_respected
    (values (synced {| campaignType := "Video Campaign"; campaignSource := "";
                       adType := ""; adTypeDetail := ""; costCenter := "";
                       subLedger := "" |})).
Proof.
  apply create_page_respects_hierarchy.
  eapply (reach_select _ _ F_campaignType "Video Campaign").
  - apply reach_mount. by vm_compute.
  - apply (bool_decide_unpack _). by vm_compute.
  - by vm_compute.
Defined.

Lemma mount_keeps_draft_witness :
  exists st, mount banner_draft = Some st
             /\ values st = defaultValues banner_draft.
Proof. exact (mount_keeps_draft banner_draft). Defined.

Lemma campaignType_change_clears_witness :
  exists st,
    commit F_campaignType "Email Campaign"
      (synced (defaultValues banner_draft)) = Some st
    /\ campaignType (values st) = "Email Campaign"%js
    /\ campaignSource (values st) = ""%js
    /\ adType (values st) = ""%js
    /\ adTypeDetail (values st) = ""%js.
Proof.
  apply (campaignType_change_clears (defaultValues banner_draft)).
  by vm_compute.
Defined.

Lemma campaignSource_change_clears_witness :
  exists st,
    commit F_campaignSource "Facebook"
      (synced (defaultValues banner_draft)) = Some st
    /\ campaignSource (values st) = "Facebook"%js
    /\ adType (values st) = ""%js
    /\ adTypeDetail (values st) = ""%js.
Proof.
  apply (campaignSource_change_clears (defaultValues banner_draft)).
  by vm_compute.
Defined.

Lemma adType_change_clears_witness :
  exists st,
    commit F_adType "Video" (synced (defaultValues banner_draft)) = Some st
    /\ adType (values st) = "Video"%js
    /\ adTypeDetail (values st) = ""%js.
Proof.
  apply (adType_change_clears (defaultValues banner_draft)).
  by vm_compute.
Defined.

Lemma costCenter_change_clears_witness :
  exists st,
    commit F_costCenter "Sales"
      (synced {| campaignType := ""; campaignSource := ""; adType := "";
                 adTypeDetail := ""; costCenter := "Marketing";
                 subLedger := "Marketing Events" |}) = Some st
    /\ costCenter (values st) = "Sales"%js
    /\ subLedger (values st) = ""%js.
Proof.
  apply (costCenter_change_clears
           {| campaignType := ""; campaignSource := ""; adType := "";
              adTypeDetail := ""; costCenter := "Marketing";
              subLedger := "Marketing Events" |}); by vm_compute.
Defined.


Section Acceptance.
Variable isUrl : jsstring -> bool.

Lemma run_check_passes (p : list jsstring) (s : jsstring) (c : StringCheck) :
  run_check isUrl p s c = [] <-> check_passes isUrl s c.
Proof.
  destruct c as [msg|msg]; cbn.
  - destruct s as [[|u l]]; cbn; split; try done.
  - destruct (isUrl s); split; done.
Qed.

Lemma flat_map_nil {A B} (f : A -> list B) (l : list A) :
  flat_map f l = [] <-> Forall (fun a => f a = []) l.
Proof.
  induction l as [|a l IH]; cbn.
  - split; [constructor|done].
  - rewrite Forall_cons, <- IH. split.
    + by intros [? ?]%app_eq_nil.
    + by intros [-> ->].
Qed.

Lemma parse_accepts (t : ZodType) (p : list jsstring) (x : value) :
  (parse isUrl t p x).2 = [] <-> accepts isUrl t x.
Proof.
  revert x. induction t as [checks| |re|t IH|t IH]; intros x; cbn.
  - destruct x; cbn; try (split; [done|by intros (? & ? & _)]).
    rewrite flat_map_nil. split.
    + intros H. exists s. split; [done|].
      eapply Forall_impl; [exact H|]. intros c. apply run_check_passes.
    + intros (s' & [= <-] & H).
      eapply Forall_impl; [exact H|]. intros c. apply run_check_passes.
  - destruct x; cbn; split; try done; try (by intros [? ?]); eauto.
  - destruct x; cbn; split; try done; try (by intros [? ?]); eauto.
  - destruct x; cbn; rewrite ?IH; split; try tauto; try (by left);
      by intros [?|?].
  - destruct x; cbn; rewrite ?IH; split; try tauto; try (by left);
      by intros [?|?].
Qed.

Lemma parse_object_accepts (shape : ObjectShape) (data : object) :
  (parse_object isUrl shape data).2 = [] <->
  Forall (fun kt => accepts isUrl kt.2 (field data kt.1)) shape.
Proof.
  induction shape as [|[k t] shape IH]; cbn.
  - split; [constructor|done].
  - rewrite Forall_cons, <- IH, <- (parse_accepts t [k]). cbn. split.
    + by intros [? ?]%app_eq_nil.
    + by intros [-> ->].
Qed.

Lemma refine_accepts (shape : ObjectShape) (check : object -> bool)
    (msg : jsstring) (p : list jsstring) (data : object) :
  (refine isUrl shape check msg p data).2 = [] <->
  (parse_object isUrl shape data).2 = [] /\ check data = true.
Proof.
  unfold refine.
  pose proof (parse_object_valid_iff isUrl shape data) as Hvalid.
  destruct (parse_object isUrl shape data) as [st issues]. cbn [fst snd] in *.
  destruct st, (check data); cbn [snd]; split;
    try (by intros [? ?]); try (by intros [?%Hvalid ?]);
    try (by intros ?%app_eq_nil); try (by intros [?%app_eq_nil ?]);
    try (intros H; split; [done|]; by apply Hvalid in H).
  all: try (by intros [? _]).
  all: intros [_ ?]%app_eq_nil; done.
Qed.

(** X14 — A draft passes validation exactly when every field holds a value
    its schema accepts (required strings non-empty, the base URL a URL, flags
    booleans, the start date a date, optional fields unset or of their type)
    and the sub-ledger rule holds. *)
Theorem validate_accepts_iff (data : object) :
  validate isUrl data = [] <->
  Forall (fun kt => accepts isUrl kt.2 (field data kt.1)) campaignFormShape
  /\ subLedgerRule data = true.
Proof.
  unfold validate, campaignFormSchema.
  by rewrite refine_accepts, parse_object_accepts.
Qed.

(** X15 — Submitting the untouched form of a page without draft puts an
    error on exactly the fields that isFieldRequired lists as base required
    fields (the empty string being no URL). *)
Theorem untouched_form_errors :
  isUrl "" = false ->
  dom (fieldErrors (validate isUrl (useFormDefaults None)))
  = list_to_set baseRequiredFields.
Proof.
  intros Hurl.
  assert (validate isUrl (useFormDefaults None)
          = validate (fun _ => false) (useFormDefaults None)) as ->.
  { vm_compute. by rewrite Hurl. }
  apply (bool_decide_unpack _). by vm_compute.
Qed.

End Acceptance.

Lemma untouched_form_errors_witness :
  dom (fieldErrors (validate is_example_url (useFormDefaults None)))
  = list_to_set baseRequiredFields.
Proof. apply untouched_form_errors. by vm_compute. Defined.

Lemma validate_accepts_iff_witness :
  Forall (fun kt => accepts is_example_url kt.2 (field complete_draft kt.1))
    campaignFormShape.
Proof.
  apply (validate_accepts_iff is_example_url complete_draft).
  by vm_compute.
Defined.

(** ** Completed fields *)

Lemma elem_of_completedFields (formValues : object) (key : jsstring) :
  key ∈ completedFields formValues <->
  exists x, formValues !! key = Some x /\ is_completed x = true.
Proof.
  unfold completedFields. rewrite elem_of_completed_entries.
  split; intros (x & Hx & Hc); exists x; split; try done;
    by apply elem_of_map_to_list.
Qed.

(** X16 — Setting one field updates the completed set locally: the field is
    added when its new value is neither empty, undefined nor null, removed
    otherwise, and no other field changes. *)
Theorem completedFields_setValue (formValues : object) (key : jsstring)
    (x : value) :
  completedFields (<[key := x]> formValues)
  = if is_completed x
    then {[ key ]} ∪ completedFields formValues
    else completedFields formValues ∖ {[ key ]}.
Proof.
  apply set_eq. intros k. rewrite elem_of_completedFields.
  destruct (is_completed x) eqn:Hx.
  - rewrite elem_of_union, elem_of_singleton, elem_of_completedFields.
    destruct (decide (key = k)) as [->|Hne].
    + rewrite lookup_insert_eq. split; [by left|]. intros _. by exists x.
    + rewrite lookup_insert_ne by done. split; [by right|].
      by intros [->|?].
  - rewrite elem_of_difference, elem_of_singleton, elem_of_completedFields.
    destruct (decide (key = k)) as [->|Hne].
    + rewrite lookup_insert_eq. split; [|by intros [_ ?]].
      intros (y & [= <-] & Hy). congruence.
    + rewrite lookup_insert_ne by done. split; [|by intros [? _]].
      intros H. split; [done|]. by intros ->.
Qed.

Lemma or_default_completed (x : value) (b : bool) :
  is_completed (or_default x (VBool b)) = true.
Proof. by destruct x as [| |[]|[[|u l]]|]. Qed.

(** X17 — Whatever the draft, the three flags targeting, partnering and
    thirdParty count as completed in the default values of the form. *)
Theorem flags_always_completed (initialData : option object) (key : jsstring) :
  key ∈ ["targeting"; "partnering"; "thirdParty"]%js ->
  key ∈ completedFields (useFormDefaults initialData).
Proof.
  intros Hk. apply elem_of_completedFields.
  exists (or_default (initial_field initialData key) (VBool false)).
  split; [|apply or_default_completed].
  repeat (apply elem_of_cons in Hk as [->|Hk]; [by vm_compute|]).
  by apply elem_of_nil in Hk.
Qed.

Lemma flags_always_completed_witness :
  "partnering"%js
  ∈ completedFields
      (useFormDefaults (Some {[ "partnering"%js := VString "" ]})).
Proof.
  apply flags_always_completed. apply (bool_decide_unpack _). by vm_compute.
Defined.


(** ** Trimming *)

Lemma trim_start_idem (l : list N) : trim_start (trim_start l) = trim_start l.
Proof.
  induction l as [|c l IH]; cbn; [done|].
  destruct (is_trim_unit c) eqn:Hc; [done|]. cbn. by rewrite Hc.
Qed.

Lemma trim_start_head (l : list N) (c : N) (l' : list N) :
  trim_start l = c :: l' -> is_trim_unit c = false.
Proof.
  induction l as [|d l IH]; cbn; [done|].
  destruct (is_trim_unit d) eqn:Hd; [done|]. by intros [= <- _].
Qed.

Lemma trim_start_fixed (c : N) (l : list N) :
  is_trim_unit c = false -> trim_start (c :: l) = c :: l.
Proof. cbn. by intros ->. Qed.

Lemma trim_start_snoc (m : list N) (c : N) :
  is_trim_unit c = false -> exists m', trim_start (m ++ [c]) = m' ++ [c].
Proof.
  intros Hc. induction m as [|d m IH]; cbn.
  - rewrite Hc. by exists [].
  - destruct (is_trim_unit d); [done|]. by exists (d :: m).
Qed.

Lemma trim_idempotent (s : jsstring) : trim (trim s) = trim s.
Proof.
  unfold trim. cbn [units]. f_equal.
  destruct (trim_start (units s)) as [|c a] eqn:Ha; [done|].
  pose proof (trim_start_head _ _ _ Ha) as Hc.
  cbn [rev]. destruct (trim_start_snoc (rev a) c Hc) as [m Hm].
  rewrite Hm, rev_app_distr. cbn [rev app].
  rewrite trim_start_fixed by done.
  change (c :: rev m) with ([c] ++ rev m).
  rewrite rev_app_distr, rev_involutive. cbn [rev app].
  pose proof (trim_start_idem (rev a ++ [c])) as Hi. rewrite Hm in Hi.
  by rewrite Hi, rev_app_distr.
Qed.

(** ** Storage and routes *)

Lemma select_by_name_nil (n : jsstring) (rows : list ReferenceEntity) :
  select_by_name n rows = [] <-> n ∉ name <$> rows.
Proof.
  unfold select_by_name. induction rows as [|r rows IH].
  - split; [intros _; apply not_elem_of_nil|done].
  - rewrite fmap_cons, not_elem_of_cons, <- IH.
    destruct (decide (name r = n)) as [Heq|Hne].
    + rewrite filter_cons_True by done. split; [done|]. by intros [? _].
    + rewrite filter_cons_False by done. split; [|by intros [_ ?]].
      intros H. split; [congruence|done].
Qed.

Lemma checkExists_spec (k : Kind) (n : jsstring) (db : Db) :
  (checkExists k n db).1 = true <-> n ∈ names k db.
Proof.
  unfold checkExists, names. cbn [fst].
  pose proof (select_by_name_nil n (table k db)) as H.
  destruct (select_by_name n (table k db)); split; try done.
  - intros Hin. by apply H in Hin.
  - intros _. destruct (decide (n ∈ name <$> table k db)); [done|].
    by assert (r :: l = []) by (by apply H).
Qed.

Lemma checkExists_tables (k k' : Kind) (n : jsstring) (db : Db) :
  table k' (checkExists k n db).2 = table k' db.
Proof. by destruct k'. Qed.

(** X18 — The insert schema accepts a request body exactly when its name is
    a string (the empty string included) and its description is a string,
    null or absent. *)
Theorem parse_insert_accepts_iff (req_body : object) :
  (exists n d, parse_insert req_body = inl (n, d))
  <-> (exists n, field req_body "name" = VString n)
      /\ (field req_body "description" = VUndefined
          \/ field req_body "description" = VNull
          \/ exists s, field req_body "description" = VString s).
Proof.
  unfold parse_insert. cbn.
  destruct (field req_body "name") as [| | |n|];
    destruct (field req_body "description") as [| | |s|]; cbn;
    split; try (by intros (? & ? & ?)); try (by intros [[? ?] _]);
    try (by intros [_ [?|[?|[? ?]]]]); eauto 6.
Qed.

Lemma parse_insert_accepts_iff_witness :
  exists n d, parse_insert {[ "name"%js := VString "" ]} = inl (n, d).
Proof.
  apply (parse_insert_accepts_iff {[ "name"%js := VString "" ]}).
  split; [by exists ""%js|by left].
Defined.

(** The three answers of a create request. *)
Lemma post_create_cases (k : Kind) (req_body : object) (db : Db) :
  let r := (post_create k req_body db).1 in
  let db' := (post_create k req_body db).2 in
  table (other k) db' = table (other k) db
  /\ ((status r = 201
       /\ exists row, body r = body_entity row
            /\ field req_body "name" = VString (name row)
            /\ (name row ∉ names k db)
            /\ table k db' = table k db ++ [row])
      \/ (status r = 409
          /\ table k db' = table k db
          /\ exists n, field req_body "name" = VString n /\ n ∈ names k db)
      \/ (status r = 400
          /\ db' = db
          /\ exists issues, parse_insert req_body = inr issues)).
Proof.
  cbn zeta. unfold post_create.
  destruct (parse_insert req_body) as [[n d]|issues] eqn:Hparse;
    [|split; [done|]; right; right; eauto].
  apply parse_insert_name in Hparse.
  pose proof (checkExists_spec k n db) as Hex.
  unfold checkExists in *. cbn [fst] in Hex.
  unfold createEntity. rewrite !table_log_call.
  pose proof (select_by_name_nil n (table k db)) as Hnil.
  destruct (select_by_name n (table k db)) as [|r0 l0] eqn:Hsel.
  - cbn [fst snd]. split; [by destruct k|]. left. split; [done|].
    eexists. split; [done|]. cbn [name]. split; [done|].
    split; [by apply Hnil|by destruct k].
  - cbn [fst snd]. split; [by destruct k|]. right. left. split; [done|].
    split; [by destruct k|]. exists n. split; [done|]. by apply Hex.
Qed.


(** X20 — A create request never touches the other table; it leaves its
    own table as it is unless it answers 201, and then adds exactly one row,
    with the requested name, which was not in the table. *)
Theorem post_create_changes_only_on_created (k : Kind) (req_body : object)
    (db : Db) :
  let r := (post_create k req_body db).1 in
  let db' := (post_create k req_body db).2 in
  table (other k) db' = table (other k) db
  /\ (status r <> 201 -> table k db' = table k db)
  /\ (status r = 201 ->
      exists row, body r = body_entity row
        /\ field req_body "name" = VString (name row)
        /\ (name row ∉ names k db)
        /\ table k db' = table k db ++ [row]).
Proof.
  cbn zeta.
  destruct (post_create_cases k req_body db)
    as [Hother [(Hs & Hrow)|[(Hs & Ht & _)|(Hs & Hdb & _)]]].
  - split; [done|]. split; [done|]. done.
  - split; [done|]. rewrite Hs. split; done.
  - split; [done|]. rewrite Hs, Hdb. split; done.
Qed.

Lemma post_create_changes_only_on_created_witness :
  table thirdParty
    (post_create partner {[ "name"%js := VString "Acme" ]} empty_db).2
  = table thirdParty empty_db.
Proof.
  apply (post_create_changes_only_on_created partner
           {[ "name"%js := VString "Acme" ]} empty_db).
Defined.

Lemma second_create_conflicts (k : Kind) (req_body : object) (db db1 : Db)
    (r : Response) :
  post_create k req_body db = (r, db1) ->
  status r = 201 ->
  exists r2 db2,
    post_create k req_body db1 = (r2, db2)
    /\ status r2 = 409
    /\ partners db2 = partners db1
    /\ thirdParties db2 = thirdParties db1.
Proof.
  intros Hpost Hst.
  destruct (post_create_created _ _ _ _ _ Hpost Hst)
    as (n & d & row & Hparse & _ & Hrow & _ & Htable).
  pose proof (select_by_name_app n (table k db) row Hrow) as Hfound.
  rewrite <- Htable in Hfound.
  unfold post_create, checkExists. rewrite Hparse.
  destruct (select_by_name n (table k db1)); [done|].
  by do 2 eexists.
Qed.

(** X21 — Create requests keep the names of each table free of duplicates. *)
Theorem post_create_keeps_names_unique (k k' : Kind) (req_body : object)
    (db : Db) :
  NoDup (names k' db) -> NoDup (names k' (post_create k req_body db).2).
Proof.
  intros Hnd. unfold names in *.
  destruct (post_create_cases k req_body db) as [Hother Hcases].
  destruct (decide (k' = k)) as [->|Hne].
  - destruct Hcases as [(_ & row & _ & _ & Hnew & ->)|[(_ & -> & _)|(_ & -> & _)]];
      try done.
    rewrite fmap_app. apply NoDup_app. split; [done|]. split.
    + intros x Hx Hx'. apply list_elem_of_singleton in Hx'. by subst.
    + apply NoDup_singleton.
  - assert (k' = other k) as -> by (by destruct k, k').
    by rewrite Hother.
Qed.

Lemma post_create_keeps_names_unique_witness :
  NoDup (names partner
           (post_create partner {[ "name"%js := VString "Acme" ]} empty_db).2).
Proof.
  apply post_create_keeps_names_unique. apply NoDup_nil_2.
Defined.

(** X22 — The check route never changes a table. Without a name, or with
    the empty name, it answers 400 without calling the storage; otherwise it
    answers 200 with exists set exactly when the name is in the table, which
    is exactly when a create request for that name would answer 409. *)
Theorem post_check_spec (k : Kind) (req_name : option jsstring) (db : Db) :
  let r := (post_check k req_name db).1 in
  let db' := (post_check k req_name db).2 in
  partners db' = partners db /\ thirdParties db' = thirdParties db
  /\ match req_name with
     | Some n =>
         if decide (n = ""%js)
         then status r = 400 /\ db' = db
         else status r = 200
              /\ body r = body_exists (bool_decide (n ∈ names k db))
              /\ (n ∈ names k db <->
                  status (post_create k {[ "name"%js := VString n ]} db).1
                  = 409)
     | None => status r = 400 /\ db' = db
     end.
Proof.
  cbn zeta. unfold post_check. destruct req_name as [n|]; [|done].
  case_decide as Hn.
  - subst. done.
  - apply str_falsy_false in Hn as ->.
    pose proof (checkExists_spec k n db) as Hex.
    unfold checkExists in *. cbn [fst snd] in *.
    split; [done|]. split; [done|]. split; [done|]. split.
    + f_equal. destruct (select_by_name n (table k db)).
      * rewrite bool_decide_false; [done|]. intros ?%Hex. done.
      * rewrite bool_decide_true; [done|]. by apply Hex.
    + destruct (post_create_cases k {[ "name"%js := VString n ]} db)
        as [_ [(Hs & row & _ & Hname & Hnew & _)|[(Hs & _ & n' & Hname & Hin)
                                               |(Hs & _ & issues & Hp)]]].
      * unfold field in Hname. rewrite lookup_singleton_eq in Hname.
        injection Hname as ->. split; [done|]. rewrite Hs. done.
      * unfold field in Hname. rewrite lookup_singleton_eq in Hname.
        injection Hname as ->. done.
      * exfalso. revert Hp. unfold parse_insert. cbn.
        unfold field. rewrite lookup_singleton_eq.
        rewrite lookup_singleton_ne by done. done.
Qed.

(** ** The dialogs *)

(** X23 — A row created through the add dialog carries the trimmed input as
    its name: a non-empty name that trimming leaves unchanged. *)
Theorem handleAdd_stores_trimmed (k : Kind) (newName : jsstring) (w : World)
    (r : Response) :
  (handleAdd k newName w).1 = Responded r ->
  status r = 201 ->
  exists row, body r = body_entity row
    /\ name row = trim newName
    /\ trim (name row) = name row
    /\ name row <> ""%js
    /\ table k (store (handleAdd k newName w).2) = table k (store w) ++ [row].
Proof.
  unfold handleAdd. destruct (str_falsy (trim newName)) eqn:Hblank; [done|].
  destruct (post_create k _ (store w)) as [r' db'] eqn:Hpost. cbn [fst snd store].
  intros [= ->] Hst.
  destruct (post_create_created _ _ _ _ _ Hpost Hst)
    as (n & d & row & Hparse & _ & Hrow & Hbody & Htable).
  apply parse_insert_name in Hparse.
  unfold field in Hparse. rewrite lookup_singleton_eq in Hparse.
  injection Hparse as <-.
  exists row. rewrite Hrow. split; [done|]. split; [done|].
  split; [apply trim_idempotent|]. split; [|done].
  by apply str_falsy_false.
Qed.

Lemma handleAdd_stores_trimmed_witness :
  exists row,
    body (post_create partner {[ "name"%js := VString "Acme" ]} empty_db).1
    = body_entity row
    /\ name row = trim "  Acme "
    /\ trim (name row) = name row
    /\ name row <> ""%js
    /\ table partner
         (store (handleAdd partner "  Acme "
                   {| network := []; toasts := []; store := empty_db |}).2)
       = table partner empty_db ++ [row].
Proof.
  apply (handleAdd_stores_trimmed partner "  Acme "
           {| network := []; toasts := []; store := empty_db |}
           (post_create partner {[ "name"%js := VString "Acme" ]} empty_db).1);
    by vm_compute.
Defined.

(** X24 — After the dialog has created a name, adding a name that trims to
    the same string is answered with 409 and leaves both tables unchanged. *)
Theorem handleAdd_twice_conflicts (k : Kind) (n1 n2 : jsstring) (w : World)
    (r : Response) :
  trim n2 = trim n1 ->
  (handleAdd k n1 w).1 = Responded r ->
  status r = 201 ->
  exists r2,
    (handleAdd k n2 (handleAdd k n1 w).2).1 = Responded r2
    /\ status r2 = 409
    /\ partners (store (handleAdd k n2 (handleAdd k n1 w).2).2)
       = partners (store (handleAdd k n1 w).2)
    /\ thirdParties (store (handleAdd k n2 (handleAdd k n1 w).2).2)
       = thirdParties (store (handleAdd k n1 w).2).
Proof.
  intros Htrim. unfold handleAdd. rewrite Htrim.
  destruct (str_falsy (trim n1)) eqn:Hblank; [done|].
  destruct (post_create k _ (store w)) as [r' db'] eqn:Hpost.
  cbn [fst snd store]. intros [= ->] Hst.
  destruct (second_create_conflicts k _ (store w) db' r Hpost Hst)
    as (r2 & db2 & Hpost2 & H409 & Hp & Ht).
  rewrite Hpost2. cbn [fst snd store]. by exists r2.
Qed.

Lemma handleAdd_twice_conflicts_witness :
  exists r2,
    (handleAdd partner " Acme"
       (handleAdd partner "Acme  "
          {| network := []; toasts := []; store := empty_db |}).2).1
    = Responded r2
    /\ status r2 = 409
    /\ partners
         (store (handleAdd partner " Acme"
                   (handleAdd partner "Acme  "
                      {| network := []; toasts := [];
                         store := empty_db |}).2).2)
       = partners
           (store (handleAdd partner "Acme  "
                     {| network := []; toasts := []; store := empty_db |}).2)
    /\ thirdParties
         (store (handleAdd partner " Acme"
                   (handleAdd partner "Acme  "
                      {| network := []; toasts := [];
                         store := empty_db |}).2).2)
       = thirdParties
           (store (handleAdd partner "Acme  "
                     {| network := []; toasts := []; store := empty_db |}).2).
Proof.
  apply (handleAdd_twice_conflicts partner "Acme  " " Acme"
           {| network := []; toasts := []; store := empty_db |}
           (post_create partner {[ "name"%js := VString "Acme" ]} empty_db).1);
    by vm_compute.
Defined.



Lemma split_space_nonempty (l : list N) : split_space l <> [].
Proof.
  destruct l as [|c l]; cbn; [done|].
  destruct (c =? 0x20)%N; [done|]. by destruct (split_space l).
Qed.

Lemma join_space_cons (seg : list N) (rest : list (list N)) :
  rest <> [] -> join_space (seg :: rest) = seg ++ 0x20%N :: join_space rest.
Proof. by destruct rest. Qed.

Lemma join_split_space (l : list N) : join_space (split_space l) = l.
Proof.
  induction l as [|c l IH]; cbn [split_space]; [done|].
  destruct (N.eqb_spec c 0x20) as [->|Hc].
  - rewrite join_space_cons by apply split_space_nonempty. by rewrite IH.
  - pose proof (split_space_nonempty l) as Hne.
    destruct (split_space l) as [|seg rest]; [done|].
    destruct rest as [|seg' rest]; cbn in *; by rewrite <- IH.
Qed.

Lemma hd_split_space_no_space (l : list N) :
  0x20%N ∉ hd [] (split_space l).
Proof.
  induction l as [|c l IH]; cbn [split_space].
  - cbn. apply not_elem_of_nil.
  - destruct (N.eqb_spec c 0x20) as [->|Hc]; [cbn; apply not_elem_of_nil|].
    pose proof (split_space_nonempty l) as Hne.
    destruct (split_space l) as [|seg rest]; [done|]. cbn in *.
    rewrite not_elem_of_cons. split; [congruence|done].
Qed.

Lemma split_space_no_space (l : list N) :
  0x20%N ∉ l -> split_space l = [l].
Proof.
  induction l as [|c l IH]; [done|]. rewrite not_elem_of_cons.
  intros [Hc Hl]. cbn. rewrite IH by done.
  destruct (N.eqb_spec c 0x20); [congruence|done].
Qed.

(** X26 — In the user built when the profile request fails, the first name
    holds no space; when the account name has a space, first name, space and
    last name give back the account name; when it has none, the first name
    is the account name and the last name is empty. *)
Theorem fallbackUser_name_round_trip (account : AccountInfo) (n : jsstring) :
  account_name account = Some n ->
  exists first last,
    firstName (fallbackUser account) = Some first
    /\ lastName (fallbackUser account) = Some last
    /\ (0x20%N ∉ units first)
    /\ (if decide (0x20%N ∈ units n)
        then units n = units first ++ 0x20%N :: units last
        else first = n /\ last = ""%js).
Proof.
  intros Hn. unfold fallbackUser. cbn [firstName lastName]. rewrite Hn. cbn.
  do 2 eexists. split; [done|]. split; [done|]. cbn [units].
  split; [apply hd_split_space_no_space|].
  destruct n as [l]. cbn [units]. case_decide as Hsp.
  - pose proof (join_split_space l) as Hj.
    pose proof (split_space_nonempty l) as Hne.
    destruct (split_space l) as [|seg rest] eqn:Hs; [done|]. cbn [hd tl].
    destruct rest as [|seg' rest].
    + exfalso. cbn in Hj. subst seg.
      pose proof (hd_split_space_no_space l) as Hno. rewrite Hs in Hno. done.
    + by rewrite <- Hj.
  - rewrite split_space_no_space by done. done.
Qed.

Lemma fallbackUser_name_round_trip_witness :
  exists first last,
    firstName (fallbackUser {| homeAccountId := "id"; username := "ada@x";
                               account_name := Some "Ada King Lovelace"%js |})
    = Some first
    /\ lastName (fallbackUser {| homeAccountId := "id"; username := "ada@x";
                                 account_name := Some "Ada King Lovelace"%js |})
       = Some last
    /\ (0x20%N ∉ units first)
    /\ (if decide (0x20%N ∈ units "Ada King Lovelace")
        then units "Ada King Lovelace" = units first ++ 0x20%N :: units last
        else first = "Ada King Lovelace"%js /\ last = ""%js).
Proof.
  apply (fallbackUser_name_round_trip
           {| homeAccountId := "id"; username := "ada@x";
              account_name := Some "Ada King Lovelace"%js |}).
  reflexivity.
Defined.

